(** * human_typist: the typing-simulation engine of [human_typist.py]

    A shallow embedding of the engine (tokenizer, delay model, typo
    injector, pause scheduler, session loop, session start) and of the
    pre-flight checks of the GUI's [on_start], followed by the properties
    of its specification.

    Conventions.
    - A Python [str] is a list of Unicode code points ([N]); a one-character
      string such as [word[i]] is a one-element list.
    - Python floats are modelled by exact rationals ([Q]); [max] and [min]
      are [Qmax] and [Qmin], which pick their arguments as Python's do.
    - The [random] module is an oracle: the [n]-th draw of the run reads the
      oracle at position [n], so a theorem quantified over oracles speaks of
      every random outcome.
    - Effects (key actions, sleeps, polls of the stop event, status posts)
      are appended to a trace carried by a state-and-exception monad. *)

From Stdlib Require Import String Ascii.
From Stdlib Require Import List Bool Arith NArith ZArith QArith Qminmax Lia Lqa.
Import ListNotations.
Close Scope Q_scope.

Set Implicit Arguments.

(* ================================================================= *)
(** ** Strings *)

Definition char := N.
Definition str := list char.

(** [py "abc"] is the Python literal ["abc"]. *)
Definition py (s : string) : str := map N_of_ascii (list_ascii_of_string s).

Definition str_eqb (a b : str) : bool :=
  if list_eq_dec N.eq_dec a b then true else false.

Definition char_in (c : char) (s : str) : bool := existsb (N.eqb c) s.

(** [s[:i]], [s[i:]] and the one-character slice [s[i:i+1]], which is
    [s[i]] whenever [i < len(s)]. *)
Definition upto (s : str) (i : nat) : str := firstn i s.
Definition from (s : str) (i : nat) : str := skipn i s.

Definition LF : char := 10%N.
Definition CR : char := 13%N.
Definition APOSTROPHE : char := 39%N.
Definition UNDERSCORE : char := 95%N.

(** The character tables of Python's [str] methods, which live in the
    interpreter and not in the repository: [isalnum], [isspace] and
    [isupper] of a one-character string, and [lower] of a one-character
    string (which may be longer than one character). *)
Class Unicode := {
  isalnum : char -> bool;
  isspace : char -> bool;
  isupper : char -> bool;
  lower : char -> str
}.

(** The tables restricted to ASCII, for running the model on ASCII text. *)
Definition is_digit (c : char) : bool := (48 <=? c)%N && (c <=? 57)%N.
Definition is_ascii_upper (c : char) : bool := (65 <=? c)%N && (c <=? 90)%N.
Definition is_ascii_lower (c : char) : bool := (97 <=? c)%N && (c <=? 122)%N.
Definition ascii_isspace (c : char) : bool :=
  ((9 <=? c)%N && (c <=? 13)%N) || ((28 <=? c)%N && (c <=? 32)%N).
Definition ascii_lower (c : char) : str :=
  if is_ascii_upper c then [(c + 32)%N] else [c].

Definition ascii_tables : Unicode := {|
  isalnum := fun c => is_digit c || is_ascii_upper c || is_ascii_lower c;
  isspace := ascii_isspace;
  isupper := is_ascii_upper;
  lower := ascii_lower
|}.

(** [neighbor.upper()]: only ever applied to characters of the tables
    below, which are ASCII. *)
Definition upper (c : char) : char :=
  if is_ascii_lower c then (c - 32)%N else c.

(* ================================================================= *)
(** ** Typing utilities and models *)

Definition QWERTY_NEIGHBORS : list (str * str) :=
  List.map (fun kv => (py (fst kv), py (snd kv)))
  [ ("a", "qwsz"); ("b", "vghn"); ("c", "xdfv"); ("d", "erfcxs");
    ("e", "wsdfr"); ("f", "rtgdvc"); ("g", "tyfhvb"); ("h", "yugjnb");
    ("i", "ujko"); ("j", "uikhm"); ("k", "ijolm,"); ("l", "kop;.");
    ("m", "nj,"); ("n", "bhjm"); ("o", "iklp"); ("p", "ol;[");
    ("q", "was"); ("r", "edfgt"); ("s", "aqwzedx"); ("t", "rfgy");
    ("u", "yhji"); ("v", "cfgb"); ("w", "qase"); ("x", "zsdc");
    ("y", "tugh"); ("z", "asx");
    ("1", "2q"); ("2", "13w"); ("3", "24e"); ("4", "35r"); ("5", "46t");
    ("6", "57y"); ("7", "68u"); ("8", "79i"); ("9", "80o"); ("0", "9p");
    (",", "kml."); (".", ",;l/"); (";", "l,p."); ("'", ";");
    ("-", "0="); ("=", "-"); ("/", ".;") ]%string.

Fixpoint dict_get (d : list (str * str)) (k : str) : option str :=
  match d with
  | [] => None
  | (k', v) :: d' => if str_eqb k k' then Some v else dict_get d' k
  end.

Definition PUNCTUATION_SET : str := py ",.!?;:".

Definition pool : str := py "abcdefghijklmnopqrstuvwxyz".

(** [12.0 / max(wpm, 1.0)] *)
Definition secs_per_char_for_wpm (wpm : Q) : Q := (12 / Qmax wpm 1)%Q.

Record Settings := {
  min_wpm : Q;
  max_wpm : Q;
  letter_typo_rate : Q;
  punct_typo_rate : Q;
  enable_corrections : bool;
  micro_pauses : bool;
  think_pause_chance : Q;
  jitter_std : Q;
  correction_latency : Q * Q
}.

(** [Settings()] with the defaults of its constructor. *)
Definition default_settings : Settings := {|
  min_wpm := 45%Q; max_wpm := 70%Q;
  letter_typo_rate := (3 # 100)%Q; punct_typo_rate := (2 # 100)%Q;
  enable_corrections := true; micro_pauses := true;
  think_pause_chance := (8 # 100)%Q; jitter_std := (25 # 100)%Q;
  correction_latency := ((15 # 100)%Q, (55 # 100)%Q)
|}.

(* ================================================================= *)
(** ** The tokenizer of [type_text] *)

Section Tokenizer.
Context {U : Unicode}.

(** [ch.isalnum() or ch in ("'", "_")] *)
Definition word_char (ch : char) : bool :=
  isalnum ch || (N.eqb ch APOSTROPHE || N.eqb ch UNDERSCORE).

(** [text.replace("\r\n", "\n")] *)
Fixpoint replace_crlf (text : str) : str :=
  match text with
  | [] => []
  | c :: rest =>
      match rest with
      | d :: rest' =>
          if N.eqb c CR && N.eqb d LF then LF :: replace_crlf rest'
          else c :: replace_crlf rest
      | [] => [c]
      end
  end.

(** [text.replace("\r", "\n")] *)
Definition replace_cr (text : str) : str :=
  List.map (fun c => if N.eqb c CR then LF else c) text.

Definition normalize (text : str) : str := replace_cr (replace_crlf text).

(** [if current: tokens.append("".join(current))] *)
Definition flush (tokens : list str) (current : str) : list str :=
  match current with
  | [] => tokens
  | _ :: _ => tokens ++ [current]
  end.

(** The scanning loop, with its two accumulators. *)
Fixpoint scan (text : str) (tokens : list str) (current : str) : list str :=
  match text with
  | [] => flush tokens current
  | ch :: rest =>
      if word_char ch then scan rest tokens (current ++ [ch])
      else scan rest (flush tokens current ++ [[ch]]) []
  end.

Definition tokenize (text : str) : list str := scan text [] [].

(** The shape of a tokenization: every token is a non-empty run of word
    characters or a single other character, and runs are maximal (no two
    runs are adjacent). *)
Definition is_run (t : str) : bool :=
  match t with
  | [] => false
  | _ :: _ => forallb word_char t
  end.

Definition is_single (t : str) : bool :=
  match t with
  | [c] => negb (word_char c)
  | _ => false
  end.

Fixpoint runs_maximal (ts : list str) : bool :=
  match ts with
  | t1 :: ((t2 :: _) as rest) => negb (is_run t1 && is_run t2) && runs_maximal rest
  | _ => true
  end.

End Tokenizer.

(* ================================================================= *)
(** ** Effects: trace, random oracle, exceptions *)

(** [pynput.keyboard.Key.enter] and [Key.backspace]. *)
Inductive Key := Enter | Backspace.

(** The strings posted to [ui_callback]. *)
Inductive status :=
| ClickIntoTarget            (* "Click into your target text field now..." *)
| StartsIn (sec : nat)       (* f"Typing starts in {sec}..." *)
| Typing                     (* "Typing..." *)
| DoneOrStopped.             (* "Done or stopped." *)

Inductive event :=
| Press (k : Key)            (* keyboard.press(k) *)
| Release (k : Key)          (* keyboard.release(k) *)
| TypeChar (c : char)        (* keyboard.type(c) *)
| Sleep (secs : Q)           (* time.sleep(secs) *)
| Poll (is_set : bool)       (* stop_event.is_set() and its answer *)
| Status (msg : status)      (* ui_callback(msg) *)
| Bell.                      (* print("\a", end="") *)

Inductive exn := RuntimeError | IndexError | ValueError.

Inductive result (A : Type) :=
| Ok (a : A)
| Raise (e : exn).
Arguments Raise {A} e.

(** The state threaded through the session task: what it has done so far
    and how many random draws it has consumed. *)
Record world := { trace : list event; draws : nat }.

Definition M (A : Type) := world -> result A * world.

Definition ret {A} (a : A) : M A := fun w => (Ok a, w).
Definition raise {A} (e : exn) : M A := fun w => (Raise e, w).
Definition bind {A B} (m : M A) (k : A -> M B) : M B :=
  fun w => match m w with
           | (Ok a, w') => k a w'
           | (Raise e, w') => (Raise e, w')
           end.

Declare Scope monad_scope.
Delimit Scope monad_scope with monad.
Notation "x <- m ;; k" := (bind m (fun x => k))
  (at level 61, m at next level, right associativity) : monad_scope.
Notation "m ;; k" := (bind m (fun _ => k))
  (at level 61, right associativity) : monad_scope.
Local Open Scope monad_scope.

Definition emit (e : event) : M unit :=
  fun w => (Ok tt, {| trace := trace w ++ [e]; draws := draws w |}).

Definition sleep (secs : Q) : M unit := emit (Sleep secs).

(** The [random] module.  The draw made at position [n] of the run reads
    [unit_draw n] for [random.random()] (a float in [0, 1)), [below_draw n]
    for the integer behind [_randbelow(k)] (reduced modulo [k]) and
    [normal_draw n] for the standard normal deviate behind [random.gauss]. *)
Record oracle := {
  unit_draw : nat -> Q;
  below_draw : nat -> nat;
  normal_draw : nat -> Q
}.

Section Random.
Variable rnd : oracle.

Definition draw {A} (f : nat -> A) : M A :=
  fun w => (Ok (f (draws w)), {| trace := trace w; draws := S (draws w) |}).

Definition random : M Q := draw (unit_draw rnd).

(** [random.uniform(a, b)] is [a + (b - a) * random()]. *)
Definition uniform (a b : Q) : M Q :=
  u <- random ;; ret (a + (b - a) * u)%Q.

(** [random.gauss(mu, sigma)] is [mu + z * sigma]. *)
Definition gauss (mu sigma : Q) : M Q :=
  z <- draw (normal_draw rnd) ;; ret (mu + z * sigma)%Q.

Definition randbelow (n : nat) : M nat :=
  draw (fun p => below_draw rnd p mod n).

(** [random.randint(a, b)]: [ValueError] on an empty range. *)
Definition randint (a b : nat) : M nat :=
  if b <? a then raise ValueError
  else k <- randbelow (b + 1 - a) ;; ret (a + k).

(** [random.choice(seq)]: [IndexError] on an empty sequence. *)
Definition choice {A} (seq : list A) : M A :=
  match seq with
  | [] => raise IndexError
  | x :: _ => k <- randbelow (length seq) ;; ret (nth k seq x)
  end.

(** [itertools.accumulate(weights)] *)
Fixpoint accumulate_from (acc : Q) (ws : list Q) : list Q :=
  match ws with
  | [] => []
  | x :: ws' => (acc + x)%Q :: accumulate_from (acc + x)%Q ws'
  end.

Definition accumulate (ws : list Q) : list Q :=
  match ws with
  | [] => []
  | x :: ws' => x :: accumulate_from x ws'
  end.

(** [bisect.bisect(a, x, 0, hi)] on a sorted list [a] is the number of
    elements of [a[:hi]] that are [<= x]. *)
Definition bisect (a : list Q) (x : Q) (hi : nat) : nat :=
  length (filter (fun c => Qle_bool c x) (firstn hi a)).

(** [random.choices(population, weights=weights)[0]] *)
Definition choices {A} (population : list A) (weights : list Q) : M A :=
  match population with
  | [] => raise IndexError
  | x :: _ =>
      let cum_weights := accumulate weights in
      let total := last cum_weights 0%Q in
      if Qle_bool total 0%Q then raise ValueError
      else
        u <- random ;;
        ret (nth (bisect cum_weights (u * total)%Q (length population - 1))
                 population x)
  end.

(** [Settings.sample_wpm] *)
Definition sample_wpm (s : Settings) : M Q := uniform (min_wpm s) (max_wpm s).

End Random.

(* ================================================================= *)
(** ** [keep_case] and [adjacent_key] *)

Section AdjacentKey.
Context {U : Unicode}.
Variable rnd : oracle.

Definition keep_case (src_char : char) (neighbor : char) : char :=
  if isupper src_char then upper neighbor else neighbor.

Definition adjacent_key (ch : char) : M char :=
  let base := lower ch in
  match dict_get QWERTY_NEIGHBORS base with
  | Some (n :: ns) =>
      c <- choice rnd (n :: ns) ;; ret (keep_case ch c)
  | _ =>
      c <- choice rnd pool ;;
      ret (if isupper ch then upper c else c)
  end.

End AdjacentKey.

(* ================================================================= *)
(** ** [HumanTyper] *)

(** [keyboard] is [false] when [Controller] is [None].  [stop_event] is the
    instant, counted in effects performed by the session task, from which
    another thread has called [stop()]; [None] when nobody ever does.
    [ui_callback] is [false] when no callback was given. *)
Record HumanTyper := {
  settings : Settings;
  keyboard : bool;
  stop_event : option nat;
  ui_callback : bool
}.

Inductive typo_type := Substitution | Transposition | Duplicate | Omission.

(** Whether the loop of [type_text] goes on to the next token ([i += 1]) or
    leaves ([break]). *)
Inductive flow := Next | Break.

Section Typer.
Context {U : Unicode}.
Variable rnd : oracle.
Variable self : HumanTyper.

(** [self.stop_event.is_set()] *)
Definition is_set : M bool :=
  fun w =>
    let b := match stop_event self with
             | Some t => t <=? length (trace w)
             | None => false
             end in
    (Ok b, {| trace := trace w ++ [Poll b]; draws := draws w |}).

(** [word[i]] *)
Definition index (word : str) (i : nat) : M char :=
  match nth_error word i with
  | Some c => ret c
  | None => raise IndexError
  end.

(* ------------- Low-level key actions ------------- *)

Definition _type_char (c : char) : M unit :=
  if negb (keyboard self) then ret tt
  else if N.eqb c LF then emit (Press Enter) ;; emit (Release Enter)
  else emit (TypeChar c).

Fixpoint backspace_loop (n : nat) (delay : Q) : M unit :=
  match n with
  | 0 => ret tt
  | S n' =>
      emit (Press Backspace) ;; emit (Release Backspace) ;; sleep delay ;;
      backspace_loop n' delay
  end.

Definition default_delay : Q := (45 # 1000)%Q.

Definition _backspace (n : nat) (delay : Q) : M unit :=
  if negb (keyboard self) then ret tt else backspace_loop n delay.

(* ------------- Delays ------------- *)

Definition _char_delay (base_wpm : Q) : M Q :=
  let base := secs_per_char_for_wpm base_wpm in
  jittered <- gauss rnd base (base * jitter_std (settings self))%Q ;;
  ret (Qmax (1 # 1000) (Qmin jittered (base * 3)%Q)).

Definition _pause_after_word (word : str) : M unit :=
  if negb (micro_pauses (settings self)) then ret tt
  else
    (if 8 <=? length word
     then d <- uniform rnd (8 # 100) (22 # 100) ;; sleep d
     else ret tt) ;;
    u <- random rnd ;;
    if negb (Qle_bool (think_pause_chance (settings self)) u)
    then d <- uniform rnd (25 # 100) (9 # 10) ;; sleep d
    else ret tt.

Definition _pause_after_punct (ch : str) : M unit :=
  if negb (micro_pauses (settings self)) then ret tt
  else
    match ch with
    | [c] =>
        if char_in c (py ".!?")
        then d <- uniform rnd (25 # 100) (65 # 100) ;; sleep d
        else if char_in c (py ",;:")
        then d <- uniform rnd (8 # 100) (25 # 100) ;; sleep d
        else ret tt
    | _ => ret tt
    end.

(* ------------- Core typing ------------- *)

Fixpoint _type_slow (text : str) (base_wpm : Q) : M unit :=
  match text with
  | [] => ret tt
  | ch :: rest =>
      stop <- is_set ;;
      if (stop : bool) then ret tt
      else
        _type_char ch ;;
        d <- _char_delay base_wpm ;;
        sleep d ;;
        _type_slow rest base_wpm
  end.

(* ------------- Typo strategies ------------- *)

(** [time.sleep(random.uniform( *self.settings.correction_latency))] *)
Definition realize_mistake : M unit :=
  d <- uniform rnd (fst (correction_latency (settings self)))
                   (snd (correction_latency (settings self))) ;;
  sleep d.

(** The four [if typo_type == ...] blocks of [_maybe_letter_typo] and its
    final [return False, "", 0].  The caller has checked [len(word) >= 3],
    so [len(word) - 1] and [len(word) - 2] are exact on [nat]. *)
Definition typo (kind : typo_type) (word : str) (base_wpm : Q)
  : M (bool * str * nat) :=
  match kind with
  | Substitution =>
      i <- randint rnd 0 (length word - 1) ;;
      c <- index word i ;;
      wrong <- adjacent_key rnd c ;;
      let typed := upto word i ++ [wrong] in
      _type_slow typed base_wpm ;;
      realize_mistake ;;
      _backspace 1 default_delay ;;
      ret (true, typed, 1)
  | Transposition =>
      if 4 <=? length word then
        i <- randint rnd 0 (length word - 2) ;;
        a <- index word i ;;
        if isspace a then ret (false, [], 0)
        else
          b <- index word (i + 1) ;;
          if isspace b then ret (false, [], 0)
          else
            let typed := upto word i ++ [b] ++ [a] in
            _type_slow typed base_wpm ;;
            realize_mistake ;;
            _backspace 2 default_delay ;;
            ret (true, typed, 2)
      else ret (false, [], 0)
  | Duplicate =>
      i <- randint rnd 0 (length word - 1) ;;
      c <- index word i ;;
      let typed := upto word (i + 1) ++ [c] in
      _type_slow typed base_wpm ;;
      realize_mistake ;;
      _backspace 1 default_delay ;;
      ret (true, typed, 1)
  | Omission =>
      i <- randint rnd 1 (length word - 2) ;;
      let typed := upto word i in
      _type_slow typed base_wpm ;;
      realize_mistake ;;
      _backspace (length typed) default_delay ;;
      _type_slow (upto word i) base_wpm ;;
      ret (true, upto word i, length typed)
  end.

Definition typo_types : list typo_type :=
  [Substitution; Transposition; Duplicate; Omission].

Definition typo_weights : list Q :=
  [(45 # 100)%Q; (25 # 100)%Q; (2 # 10)%Q; (1 # 10)%Q].

Definition _maybe_letter_typo (word : str) (base_wpm : Q)
  : M (bool * str * nat) :=
  if negb (enable_corrections (settings self)) then ret (false, [], 0)
  else if length word <? 3 then ret (false, [], 0)
  else
    u <- random rnd ;;
    if Qle_bool (letter_typo_rate (settings self)) u then ret (false, [], 0)
    else
      kind <- choices rnd typo_types typo_weights ;;
      typo kind word base_wpm.

(** [punct in PUNCTUATION_SET], for a string [punct] *)
Definition in_punctuation_set (punct : str) : bool :=
  match punct with
  | [c] => char_in c PUNCTUATION_SET
  | _ => false
  end.

Definition _maybe_punct_typo (punct : str) (base_wpm : Q) : M bool :=
  if negb (enable_corrections (settings self)) then ret false
  else if negb (in_punctuation_set punct) then ret false
  else
    u <- random rnd ;;
    if Qle_bool (punct_typo_rate (settings self)) u then ret false
    else
      let candidates :=
        filter (fun p => negb (str_eqb p punct))
               (map (fun c => [c]) PUNCTUATION_SET) in
      wrong <- choice rnd candidates ;;
      _type_slow wrong base_wpm ;;
      realize_mistake ;;
      _backspace 1 default_delay ;;
      ret true.

(* ------------- [type_text] ------------- *)

(** [s.isalnum()]: at least one character, all of them alphanumeric *)
Definition str_isalnum (s : str) : bool :=
  match s with
  | [] => false
  | _ :: _ => forallb isalnum s
  end.

(** [s.strip()] *)
Fixpoint lstrip (s : str) : str :=
  match s with
  | [] => []
  | c :: rest => if isspace c then lstrip rest else s
  end.

Definition strip (s : str) : str := rev (lstrip (rev (lstrip s))).

(** [token.isalnum() or ("'" in token and token.replace("'", "").isalnum())] *)
Definition is_word (token : str) : bool :=
  str_isalnum token
  || (char_in APOSTROPHE token
      && str_isalnum (filter (fun c => negb (N.eqb c APOSTROPHE)) token)).

(** The branch commented [# A "word"]. *)
Definition type_word (token : str) (base_wpm : Q) : M flow :=
  r <- _maybe_letter_typo token base_wpm ;;
  let '(did_typo, typed_prefix, backspaces) := r in
  stop <- is_set ;;
  if (stop : bool) then ret Break
  else
    let remaining :=
      if (did_typo : bool) then from token (length typed_prefix) else token in
    _type_slow remaining base_wpm ;;
    _pause_after_word token ;;
    ret Next.

(** The branch [elif token in PUNCTUATION_SET]. *)
Definition type_punct (token : str) (base_wpm : Q) : M flow :=
  did_punct_typo <- _maybe_punct_typo token base_wpm ;;
  stop <- is_set ;;
  if (stop : bool) then ret Break
  else
    _type_slow token base_wpm ;;
    _pause_after_punct token ;;
    ret Next.

(** The body of the [while] loop, for the token [tokens[i]]. *)
Definition type_token (token : str) : M flow :=
  base_wpm <- sample_wpm rnd (settings self) ;;
  if str_eqb (strip token) [] then
    _type_slow token base_wpm ;; ret Next
  else if is_word token then type_word token base_wpm
  else if in_punctuation_set token then type_punct token base_wpm
  else _type_slow token base_wpm ;; ret Next.

(** [while i < len(tokens) and not self.stop_event.is_set(): ...] *)
Fixpoint type_tokens (tokens : list str) : M unit :=
  match tokens with
  | [] => ret tt
  | token :: rest =>
      stop <- is_set ;;
      if (stop : bool) then ret tt
      else
        f <- type_token token ;;
        match f with
        | Next => type_tokens rest
        | Break => ret tt
        end
  end.

Definition type_text (text : str) : M unit :=
  if negb (keyboard self) then raise RuntimeError
  else type_tokens (tokenize (normalize text)).

(* ------------- Public controls ------------- *)

Definition post (msg : status) : M unit :=
  if ui_callback self then emit (Status msg) else ret tt.

(** [for sec in range(countdown, 0, -1): ...] *)
Fixpoint count_down (sec : nat) : M unit :=
  match sec with
  | 0 => ret tt
  | S sec' =>
      post (StartsIn sec) ;; emit Bell ;; sleep 1 ;; count_down sec'
  end.

(** The closure [run] of [start]: the body of the background task. *)
Definition run (text : str) (countdown : nat) : M unit :=
  post ClickIntoTarget ;;
  count_down countdown ;;
  post Typing ;;
  type_text text ;;
  post DoneOrStopped.

End Typer.

(** A [threading.Thread] that has been started, with the code it runs. *)
Inductive thread := Thread (target : M unit).

(** [HumanTyper.start]: clears the stop event, starts the task and returns
    it.  There is no other statement in it. *)
Definition start {U : Unicode} (rnd : oracle) (self : HumanTyper)
  (text : str) (countdown : nat) : result thread :=
  Ok (Thread (run rnd self text countdown)).

(** What the task has done when it ends, started from nothing. *)
Definition initial : world := {| trace := []; draws := 0 |}.

Definition join (t : result thread) : option (result unit * world) :=
  match t with
  | Ok (Thread target) => Some (target initial)
  | Raise _ => None
  end.

(* ================================================================= *)
(** ** The pre-flight checks of the GUI *)

(** The entry fields of the window.  A numeric field holds [Some q] when
    [float(var.get())] succeeds with value [q], [None] when it raises
    [ValueError]. *)
Record App := {
  textbox : str;
  min_wpm_var : option Q;
  max_wpm_var : option Q;
  letter_typo_var : option Q;
  punct_typo_var : option Q;
  think_var : option Q;
  jitter_var : option Q;
  corr_var : bool;
  pause_var : bool
}.

Inductive dialog :=
| EmptyText | MissingDependency | InvalidSettings | InvalidWPM.

Inductive gui_event :=
| ShowWarning (d : dialog)
| ShowError (d : dialog)
| PostStatus                 (* "Prepare target window. ..." *)
| Started (t : thread).      (* self.typer.start(text, countdown=3) *)

(** [App._read_settings]: the dialogs it shows, and its result. *)
Definition _read_settings (app : App) : list gui_event * result Settings :=
  match min_wpm_var app, max_wpm_var app, letter_typo_var app,
        punct_typo_var app, think_var app, jitter_var app with
  | Some lo, Some hi, Some ltr, Some ptr, Some think, Some jit =>
      if Qle_bool lo 0 || negb (Qle_bool lo hi)
      then ([ShowError InvalidWPM], Raise ValueError)
      else ([], Ok {| min_wpm := lo; max_wpm := hi;
                      letter_typo_rate := (ltr / 100)%Q;
                      punct_typo_rate := (ptr / 100)%Q;
                      enable_corrections := corr_var app;
                      micro_pauses := pause_var app;
                      think_pause_chance := (think / 100)%Q;
                      jitter_std := (jit / 100)%Q;
                      correction_latency :=
                        correction_latency default_settings |})
  | _, _, _, _, _, _ => ([ShowError InvalidSettings], Raise ValueError)
  end.

(** [App.on_start].  [controller] is [false] when [Controller is None];
    [stop] is when the user will press Stop. *)
Definition on_start {U : Unicode} (rnd : oracle) (controller : bool)
  (stop : option nat) (app : App) : list gui_event :=
  let text := textbox app in
  if str_eqb (strip text) [] then [ShowWarning EmptyText]
  else if negb controller then [ShowError MissingDependency]
  else
    match _read_settings app with
    | (shown, Raise _) => shown
    | (shown, Ok s) =>
        let typer := {| settings := s; keyboard := controller;
                        stop_event := stop; ui_callback := true |} in
        match start rnd typer text 3 with
        | Ok t => shown ++ [PostStatus; Started t]
        | Raise _ => shown ++ [PostStatus]
        end
    end.

(* ================================================================= *)
(** ** Reading a trace *)

(** The text visible in the target field after the key actions of a
    trace: a typed character is appended, Enter appends a newline,
    Backspace deletes the last character. *)
Definition apply_key (screen : str) (e : event) : str :=
  match e with
  | TypeChar c => screen ++ [c]
  | Press Enter => screen ++ [LF]
  | Press Backspace => removelast screen
  | _ => screen
  end.

Definition render_from (screen : str) (es : list event) : str :=
  fold_left apply_key es screen.

Definition render (es : list event) : str := render_from [] es.

Definition is_key_action (e : event) : bool :=
  match e with
  | Press _ | Release _ | TypeChar _ => true
  | _ => false
  end.

(** The key actions of a trace, in order. *)
Definition key_actions (es : list event) : list event :=
  filter is_key_action es.

(** The key actions that type one character, and a string one character
    at a time. *)
Definition key_of (c : char) : list event :=
  if N.eqb c LF then [Press Enter; Release Enter] else [TypeChar c].

Definition keys_of (s : str) : list event := flat_map key_of s.

(** The key actions of [n] backspaces. *)
Fixpoint backspaces (n : nat) : list event :=
  match n with
  | 0 => []
  | S n' => Press Backspace :: Release Backspace :: backspaces n'
  end.

(** No key action follows a poll of the stop event that answered [True]. *)
Fixpoint quiet_after_stop (es : list event) : bool :=
  match es with
  | [] => true
  | Poll true :: rest => forallb (fun e => negb (is_key_action e)) rest
  | _ :: rest => quiet_after_stop rest
  end.

(** [performs m w a keys]: from [w], [m] returns [a] without raising and
    the key actions it adds to the trace are [keys]. *)
Definition performs {A} (m : M A) (w : world) (a : A) (keys : list event)
  : Prop :=
  exists w' es,
    m w = (Ok a, w') /\ trace w' = trace w ++ es /\ key_actions es = keys.

(* ================================================================= *)
(** ** Scenarios *)

(** A typer with the default settings and a working keyboard. *)
Definition typer (stop : option nat) : HumanTyper :=
  {| settings := default_settings; keyboard := true;
     stop_event := stop; ui_callback := true |}.

(** The same typer when [pynput] could not be imported. *)
Definition typer_without_keyboard : HumanTyper :=
  {| settings := default_settings; keyboard := false;
     stop_event := None; ui_callback := true |}.

(** An oracle that forces a letter typo on the first word of a text that
    starts with a word.  The draws of that word are: 0 the WPM, 1 the typo
    gate, 2 the kind, 3 the index, 4 the neighbour (substitution only).
    Every [random()] answers 0 except the one that picks the kind, which
    answers [kind]; [randint] is steered by [i], [choice] by [nb]. *)
Definition forced (kind : Q) (i nb : nat) : oracle :=
  {| unit_draw := fun p => match p with 2 => kind | _ => 0%Q end;
     below_draw := fun p => match p with 3 => i | 4 => nb | _ => 0 end;
     normal_draw := fun _ => 0%Q |}.

(** An oracle for the text ["hi hello"]: no think pause after ["hi"]
    (draw 3), then an omission typo (draw 8) at index 3 in ["hello"]. *)
Definition omission_in_second_word : oracle :=
  {| unit_draw := fun p => match p with
                           | 3 => 1%Q
                           | 8 => (95 # 100)%Q
                           | _ => 0%Q
                           end;
     below_draw := fun _ => 2;
     normal_draw := fun _ => 0%Q |}.

(** An oracle whose every draw is 0. *)
Definition zeros : oracle :=
  {| unit_draw := fun _ => 0%Q; below_draw := fun _ => 0;
     normal_draw := fun _ => 0%Q |}.


(** What a session leaves on screen, and the key actions it made. *)
Definition screen_after {U : Unicode} (rnd : oracle) (self : HumanTyper)
  (text : str) : str :=
  render (trace (snd (type_text rnd self text initial))).

Definition keys_during {U : Unicode} (rnd : oracle) (self : HumanTyper)
  (text : str) : list event :=
  key_actions (trace (snd (type_text rnd self text initial))).

(** A typer whose configuration has [min_wpm = 0]. *)
Definition typer_min_wpm_zero : HumanTyper :=
  {| settings :=
       {| min_wpm := 0%Q; max_wpm := 70%Q;
          letter_typo_rate := (3 # 100)%Q; punct_typo_rate := (2 # 100)%Q;
          enable_corrections := true; micro_pauses := true;
          think_pause_chance := (8 # 100)%Q; jitter_std := (25 # 100)%Q;
          correction_latency := ((15 # 100)%Q, (55 # 100)%Q) |};
     keyboard := true; stop_event := None; ui_callback := true |}.

(** The window with a letter-typo percentage of 150 and the text ["hi"]. *)
Definition window_typo_150 : App :=
  {| textbox := py "hi";
     min_wpm_var := Some 45%Q; max_wpm_var := Some 70%Q;
     letter_typo_var := Some 150%Q; punct_typo_var := Some 2%Q;
     think_var := Some 8%Q; jitter_var := Some 25%Q;
     corr_var := true; pause_var := true |}.

(** The window with a minimum WPM of 0 and the text ["hi"]. *)
Definition window_min_wpm_zero : App :=
  {| textbox := py "hi";
     min_wpm_var := Some 0%Q; max_wpm_var := Some 70%Q;
     letter_typo_var := Some 3%Q; punct_typo_var := Some 2%Q;
     think_var := Some 8%Q; jitter_var := Some 25%Q;
     corr_var := true; pause_var := true |}.

(** What the task does before it calls [type_text]: the first status, the
    countdown, the status "Typing...".  [ui] tells whether a callback
    receives the statuses. *)
Fixpoint countdown_events (ui : bool) (sec : nat) : list event :=
  match sec with
  | 0 => []
  | S sec' =>
      (if ui then [Status (StartsIn sec)] else [])
      ++ [Bell; Sleep 1] ++ countdown_events ui sec'
  end.

Definition preamble (ui : bool) (countdown : nat) : list event :=
  (if ui then [Status ClickIntoTarget] else [])
  ++ countdown_events ui countdown
  ++ (if ui then [Status Typing] else []).

(** A typer whose settings have corrections switched off. *)
Definition typer_without_corrections : HumanTyper :=
  {| settings :=
       {| min_wpm := 45%Q; max_wpm := 70%Q;
          letter_typo_rate := (3 # 100)%Q; punct_typo_rate := (2 # 100)%Q;
          enable_corrections := false; micro_pauses := true;
          think_pause_chance := (8 # 100)%Q; jitter_std := (25 # 100)%Q;
          correction_latency := ((15 # 100)%Q, (55 # 100)%Q) |};
     keyboard := true; stop_event := None; ui_callback := true |}.

(** An oracle whose every [random()] answers one half: no typo fires and
    no think pause is taken under the default settings. *)
Definition halves : oracle :=
  {| unit_draw := fun _ => (1 # 2)%Q; below_draw := fun _ => 0;
     normal_draw := fun _ => 0%Q |}.

(* ================================================================= *)
(** ** Specifying a command *)

(** [does m w P]: from [w], [m] returns without raising, and its result
    [a] and the events [es] it appends to the trace satisfy [P a es]. *)
Definition does {A} (m : M A) (w : world) (P : A -> list event -> Prop)
  : Prop :=
  exists a w' es, m w = (Ok a, w') /\ trace w' = trace w ++ es /\ P a es.

(** [adds s es]: whatever the screen shows, the events [es] append the
    text [s] to it. *)
Definition adds (s : str) (es : list event) : Prop :=
  forall screen, render_from screen es = screen ++ s.

(** Every event of [es] is a sleep of a duration between [lo] and [hi]. *)
Definition sleeps_within (lo hi : Q) (es : list event) : Prop :=
  Forall (fun e => exists d, e = Sleep d /\ (lo <= d <= hi)%Q) es.

(** [random.random()] answers in the unit interval. *)
Definition unit_range (rnd : oracle) : Prop :=
  forall n, (0 <= unit_draw rnd n <= 1)%Q.

(** No event of [es] is a poll of the stop event. *)
Definition is_poll (e : event) : bool :=
  match e with
  | Poll _ => true
  | _ => false
  end.

(** The word [word] with the [n] characters from index [j] on left out. *)
Definition without (word : str) (j n : nat) : str :=
  upto word j ++ from word (j + n).

(* ================================================================= *)
(** * Properties *)

Unset Implicit Arguments.

(* ================================================================= *)
(** ** The tokenizer *)

Section TokenizerFacts.
Context {U : Unicode}.

Lemma flush_app (tokens : list str) (current : str) :
  flush tokens current = tokens ++ flush [] current.
Proof.
  destruct current; simpl; [now rewrite app_nil_r | reflexivity].
Qed.

(** The accumulator of finished tokens is only ever appended to. *)
Lemma scan_app (text : str) :
  forall tokens current,
    scan text tokens current = tokens ++ scan text [] current.
Proof.
  induction text as [|ch rest IH]; intros tokens current; simpl.
  - apply flush_app.
  - destruct (word_char ch).
    + apply IH.
    + rewrite IH, (IH (flush [] current ++ [[ch]])), (flush_app tokens).
      now rewrite !app_assoc.
Qed.

Lemma concat_flush (current : str) : concat (flush [] current) = current.
Proof.
  destruct current; simpl; [reflexivity | now rewrite app_nil_r].
Qed.

Lemma concat_scan (text : str) :
  forall current, concat (scan text [] current) = current ++ text.
Proof.
  induction text as [|ch rest IH]; intros current; simpl.
  - now rewrite concat_flush, app_nil_r.
  - destruct (word_char ch).
    + rewrite IH, <- app_assoc. reflexivity.
    + rewrite scan_app, !concat_app, concat_flush, IH. simpl.
      rewrite <- app_assoc. reflexivity.
Qed.

Lemma is_run_snoc (current : str) (ch : char) :
  forallb word_char current = true -> word_char ch = true ->
  forallb word_char (current ++ [ch]) = true.
Proof.
  intros Hc Hch. rewrite forallb_app, Hc. simpl. now rewrite Hch.
Qed.

Lemma shape_flush (current : str) :
  forallb word_char current = true ->
  forallb (fun t => is_run t || is_single t) (flush [] current) = true.
Proof.
  intros Hc. destruct current as [|c cs]; [reflexivity|].
  assert (Hrun : is_run (c :: cs) = true) by exact Hc.
  change (flush [] (c :: cs)) with [c :: cs].
  cbv beta iota delta [forallb]. now rewrite Hrun.
Qed.

Lemma shape_scan (text : str) :
  forall current,
    forallb word_char current = true ->
    forallb (fun t => is_run t || is_single t) (scan text [] current) = true.
Proof.
  induction text as [|ch rest IH]; intros current Hc; simpl.
  - now apply shape_flush.
  - destruct (word_char ch) eqn:Hch.
    + apply IH. now apply is_run_snoc.
    + rewrite scan_app, !forallb_app, shape_flush by assumption.
      rewrite (IH [] eq_refl). simpl. now rewrite Hch.
Qed.

Lemma runs_maximal_after_single (t : str) (ts : list str) :
  is_run t = false -> runs_maximal ts = true -> runs_maximal (t :: ts) = true.
Proof.
  intros Ht Hts. destruct ts as [|t2 ts]; [reflexivity|].
  simpl. simpl in Hts. now rewrite Ht, Hts.
Qed.

Lemma runs_maximal_before_single (t1 t2 : str) (ts : list str) :
  is_run t2 = false -> runs_maximal (t2 :: ts) = true ->
  runs_maximal (t1 :: t2 :: ts) = true.
Proof.
  intros Ht Hts. change (runs_maximal (t1 :: t2 :: ts))
    with (negb (is_run t1 && is_run t2) && runs_maximal (t2 :: ts)).
  now rewrite Ht, Hts, andb_false_r.
Qed.

Lemma maximal_scan (text : str) :
  forall current, runs_maximal (scan text [] current) = true.
Proof.
  induction text as [|ch rest IH]; intros current; simpl.
  - now destruct current.
  - destruct (word_char ch) eqn:Hch.
    + apply IH.
    + assert (Hs : is_run [ch] = false) by (simpl; now rewrite Hch).
      rewrite scan_app, <- app_assoc. simpl.
      pose proof (runs_maximal_after_single [ch] _ Hs (IH [])) as Hrest.
      destruct current as [|c cs]; simpl flush; simpl app.
      * exact Hrest.
      * now apply runs_maximal_before_single.
Qed.

(** C3. For every text, after its line endings are normalized, the tokens
    of the tokenizer concatenate back to the text; every token is a
    non-empty run of alphanumerics, apostrophes and underscores or one
    single other character, and the runs are maximal. *)
Theorem tokenize_round_trip (text : str) :
  let tokens := tokenize (normalize text) in
  concat tokens = normalize text
  /\ forallb (fun t => is_run t || is_single t) tokens = true
  /\ runs_maximal tokens = true.
Proof.
  unfold tokenize. repeat split.
  - apply concat_scan.
  - now apply shape_scan.
  - apply maximal_scan.
Qed.

End TokenizerFacts.

(* ================================================================= *)
(** ** The delay model *)

Section DelayFacts.
Variable rnd : oracle.
Variable self : HumanTyper.

Lemma char_delay_run (base_wpm : Q) (w : world) :
  _char_delay rnd self base_wpm w =
  (Ok (Qmax (1 # 1000)
        (Qmin (secs_per_char_for_wpm base_wpm
               + normal_draw rnd (draws w)
                 * (secs_per_char_for_wpm base_wpm * jitter_std (settings self)))
              (secs_per_char_for_wpm base_wpm * 3))),
   {| trace := trace w; draws := S (draws w) |}).
Proof. reflexivity. Qed.

Lemma base_delay_floor (wpm : Q) :
  (wpm <= 36000)%Q -> (1 # 1000 <= secs_per_char_for_wpm wpm * 3)%Q.
Proof.
  intros Hw. unfold secs_per_char_for_wpm.
  assert (Hpos : (0 < Qmax wpm 1)%Q).
  { apply Qlt_le_trans with 1%Q; [reflexivity | apply Q.le_max_r]. }
  assert (Hle : (Qmax wpm 1 <= 36000)%Q).
  { apply Q.max_lub; [assumption | discriminate]. }
  setoid_replace (12 / Qmax wpm 1 * 3)%Q with (36 / Qmax wpm 1)%Q
    by (field; intros E; rewrite E in Hpos; discriminate).
  apply Qle_shift_div_l; [assumption | lra].
Qed.

Lemma base_delay_ceiling (wpm : Q) :
  (36000 < wpm)%Q -> (secs_per_char_for_wpm wpm * 3 < 1 # 1000)%Q.
Proof.
  intros Hw. unfold secs_per_char_for_wpm.
  assert (Hm : (36000 < Qmax wpm 1)%Q).
  { eapply Qlt_le_trans; [exact Hw | apply Q.le_max_l]. }
  assert (Hpos : (0 < Qmax wpm 1)%Q) by lra.
  setoid_replace (12 / Qmax wpm 1 * 3)%Q with (36 / Qmax wpm 1)%Q
    by (field; intros E; rewrite E in Hpos; discriminate).
  apply Qlt_shift_div_r; [assumption | lra].
Qed.

(** C8, as the code has it. Whatever the WPM and the jitter, the delay is
    at least 0.001 and at most the larger of 0.001 and three base delays.
    For a WPM of at most 36000 it lies between 0.001 and three base
    delays; above 36000 three base delays are less than 0.001 and the
    delay is 0.001. *)
Theorem char_delay_bounds (base_wpm : Q) (w : world) :
  exists d w',
    _char_delay rnd self base_wpm w = (Ok d, w')
    /\ (1 # 1000 <= d)%Q
    /\ (d <= Qmax (1 # 1000) (secs_per_char_for_wpm base_wpm * 3))%Q
    /\ ((base_wpm <= 36000)%Q ->
        (d <= secs_per_char_for_wpm base_wpm * 3)%Q)
    /\ ((36000 < base_wpm)%Q ->
        (secs_per_char_for_wpm base_wpm * 3 < 1 # 1000)%Q /\ d = (1 # 1000)%Q).
Proof.
  rewrite char_delay_run.
  set (base := secs_per_char_for_wpm base_wpm).
  set (jittered := (base + _)%Q).
  exists (Qmax (1 # 1000) (Qmin jittered (base * 3))); eexists.
  split; [reflexivity|].
  split; [apply Q.le_max_l|].
  split; [apply Q.max_le_compat_l, Q.le_min_r|].
  split.
  - intros Hw. apply Q.max_lub.
    + now apply base_delay_floor.
    + apply Q.le_min_r.
  - intros Hw.
    assert (Hlt : (base * 3 < 1 # 1000)%Q) by now apply base_delay_ceiling.
    split; [exact Hlt|].
    unfold Qmax, GenericMinMax.gmax.
    destruct (Qcompare_spec (1 # 1000) (Qmin jittered (base * 3)))
      as [_|Hc|_]; try reflexivity.
    exfalso. apply (Qlt_irrefl (1 # 1000)).
    eapply Qlt_trans; [exact Hc|].
    eapply Qle_lt_trans; [apply Q.le_min_r | exact Hlt].
Qed.

End DelayFacts.

(* ================================================================= *)
(** ** Running the monad *)

Lemma bind_ok {A B} (m : M A) (k : A -> M B) (w w' : world) (a : A) :
  m w = (Ok a, w') -> bind m k w = k a w'.
Proof. intros E. unfold bind. now rewrite E. Qed.

Lemma key_actions_app (es1 es2 : list event) :
  key_actions (es1 ++ es2) = key_actions es1 ++ key_actions es2.
Proof. apply filter_app. Qed.

Lemma performs_ret {A} (a : A) (w : world) : performs (ret a) w a [].
Proof. exists w, []. now rewrite app_nil_r. Qed.

Lemma performs_bind {A B} (m : M A) (k : A -> M B) w a b keys1 keys2 :
  performs m w a keys1 ->
  (forall w', m w = (Ok a, w') -> performs (k a) w' b keys2) ->
  performs (bind m k) w b (keys1 ++ keys2).
Proof.
  intros (w1 & es1 & E1 & T1 & K1) Hk.
  destruct (Hk w1 E1) as (w2 & es2 & E2 & T2 & K2).
  exists w2, (es1 ++ es2). repeat split.
  - now rewrite (bind_ok m k w w1 a E1).
  - now rewrite T2, T1, app_assoc.
  - now rewrite key_actions_app, K1, K2.
Qed.

(** [then_ keys1 keys2]: split a sequence into its first command, which
    adds [keys1], and the rest, which adds [keys2]. *)
Ltac then_ keys1 keys2 :=
  eapply (performs_bind _ _ _ _ _ keys1 keys2).

Lemma performs_emit (e : event) (w : world) :
  performs (emit e) w tt (key_actions [e]).
Proof. exists {| trace := trace w ++ [e]; draws := draws w |}, [e]. now repeat split. Qed.

Lemma performs_draw {A} (f : nat -> A) (w : world) :
  performs (draw f) w (f (draws w)) [].
Proof.
  exists {| trace := trace w; draws := S (draws w) |}, [].
  repeat split. simpl. now rewrite app_nil_r.
Qed.

Lemma performs_uniform rnd (a b : Q) (w : world) :
  performs (uniform rnd a b) w (a + (b - a) * unit_draw rnd (draws w))%Q [].
Proof.
  unfold uniform, random.
  then_ (@nil event) (@nil event);
    [apply performs_draw | intros; apply performs_ret].
Qed.

Lemma draw_trace {A} (f : nat -> A) (w w' : world) (a : A) :
  draw f w = (Ok a, w') -> trace w' = trace w.
Proof. unfold draw. intros E. injection E as _ <-. reflexivity. Qed.

Lemma random_trace rnd (w w' : world) (u : Q) :
  random rnd w = (Ok u, w') -> trace w' = trace w.
Proof. apply draw_trace. Qed.

Lemma choices_run rnd (w : world) :
  choices rnd typo_types typo_weights w =
  (Ok (nth (bisect (accumulate typo_weights)
                   (unit_draw rnd (draws w)
                    * last (accumulate typo_weights) 0%Q)%Q 3)
           typo_types Substitution),
   {| trace := trace w; draws := S (draws w) |}).
Proof. reflexivity. Qed.

Lemma choices_trace rnd (w w' : world) (kind : typo_type) :
  choices rnd typo_types typo_weights w = (Ok kind, w') -> trace w' = trace w.
Proof. rewrite choices_run. intros E. injection E as _ <-. reflexivity. Qed.

Lemma randint_run rnd (a b : nat) (w w' : world) (i : nat) :
  randint rnd a b w = (Ok i, w') ->
  a <= i <= b /\ trace w' = trace w.
Proof.
  unfold randint. destruct (b <? a) eqn:Hba; [discriminate|].
  apply Nat.ltb_ge in Hba.
  unfold bind, randbelow, draw, ret. intros E. injection E as <- <-.
  simpl. split; [|reflexivity].
  pose proof (Nat.mod_upper_bound (below_draw rnd (draws w)) (b + 1 - a)).
  lia.
Qed.

(* ================================================================= *)
(** ** Reading the screen *)

Lemma render_from_app (screen : str) (es1 es2 : list event) :
  render_from screen (es1 ++ es2) = render_from (render_from screen es1) es2.
Proof. apply fold_left_app. Qed.

(** Only key actions change the screen. *)
Lemma render_from_keys (es : list event) :
  forall screen, render_from screen (key_actions es) = render_from screen es.
Proof.
  induction es as [|e es IH]; intros screen; [reflexivity|].
  destruct e as [k|k|c|d|b|m|]; simpl; try apply IH.
  all: change (render_from ?s (?e :: ?l)) with (render_from (apply_key s e) l).
  all: apply IH.
Qed.

Lemma render_keys_of (s : str) :
  forall screen, render_from screen (keys_of s) = screen ++ s.
Proof.
  induction s as [|c s IH]; intros screen; simpl.
  - now rewrite app_nil_r.
  - rewrite render_from_app, IH. unfold key_of.
    destruct (N.eqb_spec c LF) as [->|_]; simpl; now rewrite <- app_assoc.
Qed.

Lemma render_backspaces (typed : str) :
  forall screen,
    render_from (screen ++ typed) (backspaces (length typed)) = screen.
Proof.
  induction typed as [|c typed IH] using rev_ind; intros screen.
  - simpl. now rewrite app_nil_r.
  - rewrite length_app, Nat.add_comm. simpl.
    rewrite app_assoc, removelast_last. apply IH.
Qed.

(* ================================================================= *)
(** ** The typo injector *)

Section TyperFacts.
Context {U : Unicode}.
Variable rnd : oracle.
Variable self : HumanTyper.

(** C9. A word shorter than three characters never gets a letter typo:
    the injector returns (False, "", 0) and does nothing, whatever the typo
    rate.  On a word shorter than four characters the transposition block
    does nothing, so when [random.choices] picks a transposition the
    injector returns (False, "", 0) without any key action. *)
Theorem no_typo_on_short_words (word : str) (base_wpm : Q) (w : world) :
  length word < 4 ->
  typo rnd self Transposition word base_wpm w = (Ok (false, [], 0), w)
  /\ (forall u w1 w2,
        random rnd w = (Ok u, w1) ->
        choices rnd typo_types typo_weights w1 = (Ok Transposition, w2) ->
        exists w',
          _maybe_letter_typo rnd self word base_wpm w = (Ok (false, [], 0), w')
          /\ trace w' = trace w)
  /\ (length word < 3 ->
      _maybe_letter_typo rnd self word base_wpm w = (Ok (false, [], 0), w)).
Proof.
  intros Hlen.
  assert (Hblock : forall w0,
    typo rnd self Transposition word base_wpm w0 = (Ok (false, [], 0), w0)).
  { intros w0. unfold typo.
    destruct (4 <=? length word) eqn:H4; [|reflexivity].
    apply Nat.leb_le in H4. lia. }
  split; [apply Hblock|]. split.
  - intros u w1 w2 Hu Hkind. unfold _maybe_letter_typo.
    destruct (negb (enable_corrections (settings self)));
      [exists w; now split|].
    destruct (length word <? 3); [exists w; now split|].
    rewrite (bind_ok _ _ _ _ _ Hu).
    apply random_trace in Hu.
    destruct (Qle_bool (letter_typo_rate (settings self)) u);
      [exists w1; now split|].
    rewrite (bind_ok _ _ _ _ _ Hkind), Hblock.
    apply choices_trace in Hkind.
    exists w2. split; [reflexivity | congruence].
  - intros H3. unfold _maybe_letter_typo.
    destruct (negb (enable_corrections (settings self))); [reflexivity|].
    apply Nat.ltb_lt in H3. now rewrite H3.
Qed.

(* ------------- a session that is never cancelled ------------- *)

Hypothesis has_keyboard : keyboard self = true.
Hypothesis never_stopped : stop_event self = None.

Lemma performs_is_set (w : world) : performs (is_set self) w false [].
Proof.
  exists {| trace := trace w ++ [Poll false]; draws := draws w |}, [Poll false].
  unfold is_set. rewrite never_stopped. now repeat split.
Qed.

Lemma performs_type_char (c : char) (w : world) :
  performs (_type_char self c) w tt (key_of c).
Proof.
  unfold _type_char, key_of. rewrite has_keyboard. simpl.
  destruct (N.eqb c LF).
  - then_ [Press Enter] [Release Enter];
      [apply performs_emit | intros; apply performs_emit].
  - apply performs_emit.
Qed.

Lemma performs_char_delay (base_wpm : Q) (w : world) :
  exists d, performs (_char_delay rnd self base_wpm) w d [].
Proof.
  eexists. exists {| trace := trace w; draws := S (draws w) |}, [].
  rewrite char_delay_run. repeat split. simpl. now rewrite app_nil_r.
Qed.

Lemma performs_type_slow (text : str) (base_wpm : Q) :
  forall w, performs (_type_slow rnd self text base_wpm) w tt (keys_of text).
Proof.
  induction text as [|ch rest IH]; intros w.
  - apply performs_ret.
  - cbn [_type_slow].
    then_ (@nil event) (keys_of (ch :: rest));
      [apply performs_is_set | intros w1 _].
    cbv iota.
    then_ (key_of ch) (keys_of rest);
      [apply performs_type_char | intros w2 _].
    destruct (performs_char_delay base_wpm w2) as [d Hd].
    then_ (@nil event) (keys_of rest); [exact Hd | intros w3 _].
    then_ (@nil event) (keys_of rest);
      [apply (performs_emit (Sleep d)) | intros w4 _].
    apply IH.
Qed.

Lemma performs_backspace_loop (n : nat) (delay : Q) :
  forall w, performs (backspace_loop n delay) w tt (backspaces n).
Proof.
  induction n as [|n IH]; intros w.
  - apply performs_ret.
  - cbn [backspace_loop].
    then_ [Press Backspace] (Release Backspace :: backspaces n);
      [apply performs_emit | intros w1 _].
    then_ [Release Backspace] (backspaces n);
      [apply performs_emit | intros w2 _].
    then_ (@nil event) (backspaces n);
      [apply (performs_emit (Sleep delay)) | intros w3 _].
    apply IH.
Qed.

Lemma performs_backspace (n : nat) (delay : Q) (w : world) :
  performs (_backspace self n delay) w tt (backspaces n).
Proof.
  unfold _backspace. rewrite has_keyboard. apply performs_backspace_loop.
Qed.

Lemma performs_pause (a b : Q) (w : world) :
  performs (d <- uniform rnd a b ;; sleep d) w tt [].
Proof.
  then_ (@nil event) (@nil event);
    [apply performs_uniform | intros w1 _].
  apply (performs_emit (Sleep _)).
Qed.

Lemma performs_realize_mistake (w : world) :
  performs (realize_mistake rnd self) w tt [].
Proof. apply performs_pause. Qed.

Lemma performs_pause_after_word (word : str) (w : world) :
  performs (_pause_after_word rnd self word) w tt [].
Proof.
  unfold _pause_after_word.
  destruct (negb (micro_pauses (settings self))); [apply performs_ret|].
  then_ (@nil event) (@nil event).
  { destruct (8 <=? length word); [apply performs_pause | apply performs_ret]. }
  intros w1 _.
  then_ (@nil event) (@nil event); [apply performs_draw | intros w2 _].
  destruct (negb _); [apply performs_pause | apply performs_ret].
Qed.

(** C10. When the injector is enabled, fires on a word of at least three
    characters, picks an omission and draws the index [i], then [i] is
    interior, the injector types the prefix [word[:i]], backspaces [i]
    times, retypes that prefix and returns it with the count [i]; the
    session then types [word[i:]], and the key actions of the whole token
    add exactly the word to the screen. *)
Theorem omission_restores_word
  (word : str) (base_wpm : Q) (w w1 w2 w3 : world) (u : Q) (i : nat) :
  enable_corrections (settings self) = true ->
  3 <= length word ->
  random rnd w = (Ok u, w1) ->
  Qle_bool (letter_typo_rate (settings self)) u = false ->
  choices rnd typo_types typo_weights w1 = (Ok Omission, w2) ->
  randint rnd 1 (length word - 2) w2 = (Ok i, w3) ->
  1 <= i <= length word - 2
  /\ exists w4 es,
       _maybe_letter_typo rnd self word base_wpm w
       = (Ok (true, upto word i, i), w4)
       /\ trace w4 = trace w ++ es
       /\ key_actions es
          = keys_of (upto word i) ++ backspaces i ++ keys_of (upto word i)
       /\ exists w5 es',
            type_word rnd self word base_wpm w = (Ok Next, w5)
            /\ trace w5 = trace w4 ++ es'
            /\ key_actions es' = keys_of (from word i)
            /\ forall screen, render_from screen (es ++ es') = screen ++ word.
Proof.
  intros Hen Hlen Hu Hrate Hkind Hi.
  destruct (randint_run _ _ _ _ _ _ Hi) as [Hrange Ht3].
  split; [exact Hrange|].
  assert (Hl : length (upto word i) = i)
    by (unfold upto; apply firstn_length_le; lia).
  (* the omission block, from the world after the three draws *)
  assert (Hblock :
    performs
      (_type_slow rnd self (upto word i) base_wpm ;;
       realize_mistake rnd self ;;
       _backspace self (length (upto word i)) default_delay ;;
       _type_slow rnd self (upto word i) base_wpm ;;
       ret (true, upto word i, length (upto word i)))
      w3 (true, upto word i, length (upto word i))
      (keys_of (upto word i)
       ++ [] ++ backspaces (length (upto word i))
       ++ keys_of (upto word i) ++ [])).
  { then_ (keys_of (upto word i))
          ([] ++ backspaces (length (upto word i))
           ++ keys_of (upto word i) ++ []);
      [apply performs_type_slow | intros ? _].
    then_ (@nil event)
          (backspaces (length (upto word i)) ++ keys_of (upto word i) ++ []);
      [apply performs_realize_mistake | intros ? _].
    then_ (backspaces (length (upto word i))) (keys_of (upto word i) ++ []);
      [apply performs_backspace | intros ? _].
    then_ (keys_of (upto word i)) (@nil event);
      [apply performs_type_slow | intros ? _].
    apply performs_ret. }
  rewrite Hl, app_nil_r in Hblock. cbn [app] in Hblock.
  destruct Hblock as (w4 & es & E4 & T4 & K4).
  assert (Hinjector :
    _maybe_letter_typo rnd self word base_wpm w
    = (Ok (true, upto word i, i), w4)).
  { unfold _maybe_letter_typo. rewrite Hen. cbn [negb].
    replace (length word <? 3) with false
      by (symmetry; apply Nat.ltb_ge; lia).
    rewrite (bind_ok _ _ _ _ _ Hu), Hrate.
    rewrite (bind_ok _ _ _ _ _ Hkind).
    unfold typo. rewrite (bind_ok _ _ _ _ _ Hi).
    rewrite Hl. exact E4. }
  exists w4, es. split; [exact Hinjector|].
  split.
  { rewrite T4, Ht3. apply choices_trace in Hkind. apply random_trace in Hu.
    congruence. }
  split; [exact K4|].
  (* what the session does after the injector *)
  assert (Hrest :
    performs
      (stop <- is_set self ;;
       if (stop : bool) then ret Break
       else
         _type_slow rnd self (from word i) base_wpm ;;
         _pause_after_word rnd self word ;;
         ret Next)
      w4 Next ([] ++ keys_of (from word i) ++ [] ++ [])).
  { then_ (@nil event) (keys_of (from word i) ++ [] ++ []);
      [apply performs_is_set | intros ? _].
    cbv iota.
    then_ (keys_of (from word i)) (@nil event ++ []);
      [apply performs_type_slow | intros ? _].
    then_ (@nil event) (@nil event);
      [apply performs_pause_after_word | intros ? _].
    apply performs_ret. }
  cbn [app] in Hrest. rewrite app_nil_r in Hrest.
  destruct Hrest as (w5 & es' & E5 & T5 & K5).
  exists w5, es'. split.
  { unfold type_word. rewrite (bind_ok _ _ _ _ _ Hinjector).
    cbv beta iota. rewrite Hl. exact E5. }
  split; [exact T5|]. split; [exact K5|].
  intros screen.
  rewrite <- render_from_keys, key_actions_app, K4, K5.
  rewrite !render_from_app, (render_keys_of (upto word i) screen).
  replace (backspaces i) with (backspaces (length (upto word i)))
    by now rewrite Hl.
  rewrite render_backspaces, !render_keys_of.
  rewrite <- app_assoc. unfold upto, from. now rewrite firstn_skipn.
Qed.

End TyperFacts.

(* ================================================================= *)
(** ** Starting a session *)

Section StartFacts.
Context {U : Unicode}.
Variable rnd : oracle.

Lemma post_run (self : HumanTyper) (msg : status) (w : world) :
  post self msg w
  = (Ok tt, {| trace := trace w ++ (if ui_callback self then [Status msg] else []);
               draws := draws w |}).
Proof.
  unfold post. destruct (ui_callback self); [reflexivity|].
  unfold ret. rewrite app_nil_r. now destruct w.
Qed.

Lemma count_down_run (self : HumanTyper) (sec : nat) :
  forall w,
    count_down self sec w
    = (Ok tt, {| trace := trace w ++ countdown_events (ui_callback self) sec;
                 draws := draws w |}).
Proof.
  induction sec as [|sec IH]; intros w.
  - simpl. unfold ret. rewrite app_nil_r. now destruct w.
  - cbn [count_down countdown_events].
    rewrite (bind_ok _ _ _ _ _ (post_run self (StartsIn (S sec)) w)).
    unfold emit at 1, sleep, bind at 1. unfold emit at 1, bind at 1.
    rewrite IH. cbn [trace draws]. now rewrite <- !app_assoc.
Qed.

(** C6, as the code has it. [HumanTyper.start] checks nothing and starts
    the task for any configuration.  The WPM range is checked by the
    window: when the minimum WPM is not positive or the maximum is below
    the minimum, [_read_settings] raises [ValueError], and [on_start] shows
    one dialog and starts no task. *)
Theorem invalid_wpm_is_rejected_by_the_window
  (controller : bool) (stop : option nat) (app : App) (lo hi : Q) :
  min_wpm_var app = Some lo ->
  max_wpm_var app = Some hi ->
  (lo <= 0 \/ hi < lo)%Q ->
  snd (_read_settings app) = Raise ValueError
  /\ (exists d, on_start rnd controller stop app = [ShowWarning d]
                \/ on_start rnd controller stop app = [ShowError d])
  /\ (forall t, ~ In (Started t) (on_start rnd controller stop app))
  /\ (forall self text countdown,
        start rnd self text countdown
        = Ok (Thread (run rnd self text countdown))).
Proof.
  intros Hlo Hhi Hbad.
  assert (Hcheck : Qle_bool lo 0 || negb (Qle_bool lo hi) = true).
  { destruct Hbad as [Hneg|Hlt].
    - apply (proj2 (Qle_bool_iff lo 0)) in Hneg. now rewrite Hneg.
    - destruct (Qle_bool lo hi) eqn:Hle; [|apply orb_true_r].
      apply Qle_bool_iff in Hle. exfalso. exact (Qlt_not_le _ _ Hlt Hle). }
  assert (Hread : exists d,
            _read_settings app = ([ShowError d], Raise ValueError)).
  { unfold _read_settings. rewrite Hlo, Hhi.
    destruct (letter_typo_var app), (punct_typo_var app), (think_var app),
      (jitter_var app); try (now exists InvalidSettings).
    rewrite Hcheck. now exists InvalidWPM. }
  destruct Hread as [d Hread].
  assert (Hshown : exists d',
            on_start rnd controller stop app = [ShowWarning d']
            \/ on_start rnd controller stop app = [ShowError d']).
  { unfold on_start. destruct (str_eqb _ _); [exists EmptyText; now left|].
    destruct controller; cbn [negb];
      [|exists MissingDependency; now right].
    rewrite Hread. exists d. now right. }
  split; [now rewrite Hread|]. split; [exact Hshown|]. split; [|reflexivity].
  intros t Hin. destruct Hshown as [d' [E|E]]; rewrite E in Hin;
    destruct Hin as [Hin|[]]; discriminate Hin.
Qed.

(** C7, as the code has it. Without a keyboard controller the window
    shows a missing-dependency error (or the empty-text warning) and starts
    nothing.  [HumanTyper.start] itself returns a started task; the task
    posts its statuses and runs the countdown, then [type_text] raises
    [RuntimeError]: no key action is made and no random draw is taken. *)
Theorem no_typing_without_keyboard
  (self : HumanTyper) (text : str) (countdown : nat) :
  keyboard self = false ->
  start rnd self text countdown = Ok (Thread (run rnd self text countdown))
  /\ (forall w,
        run rnd self text countdown w
        = (Raise RuntimeError,
           {| trace := trace w ++ preamble (ui_callback self) countdown;
              draws := draws w |}))
  /\ key_actions (preamble (ui_callback self) countdown) = []
  /\ (forall stop app,
        on_start rnd false stop app
        = if str_eqb (strip (textbox app)) [] then [ShowWarning EmptyText]
          else [ShowError MissingDependency]).
Proof.
  intros Hk. split; [reflexivity|]. split; [|split].
  - intros w. unfold run, preamble.
    rewrite (bind_ok _ _ _ _ _ (post_run self ClickIntoTarget w)).
    rewrite (bind_ok _ _ _ _ _ (count_down_run self countdown _)).
    rewrite (bind_ok _ _ _ _ _ (post_run self Typing _)).
    unfold bind, type_text. rewrite Hk. cbn [negb raise trace draws].
    now rewrite <- !app_assoc.
  - unfold preamble. rewrite !key_actions_app.
    assert (Hcd : key_actions (countdown_events (ui_callback self) countdown) = []).
    { induction countdown as [|n IH]; [reflexivity|].
      cbn [countdown_events]. rewrite !key_actions_app, IH.
      now destruct (ui_callback self). }
    rewrite Hcd. now destruct (ui_callback self).
  - intros stop app. unfold on_start.
    now destruct (str_eqb _ _).
Qed.

End StartFacts.

(* ================================================================= *)
(** ** Typo paths on concrete words *)

#[local] Existing Instance ascii_tables.

(** C1 at inputs where it fails. A forced substitution at index 0 of
    "hello" leaves "ello" on screen, a forced transposition at index 1 of
    "their" leaves "tir", a forced duplication at index 0 of "hello" leaves
    "hllo": the remainder typed after the correction starts after the
    whole typed prefix, backspaced characters included. *)
Theorem typo_paths_drop_characters :
  screen_after (forced 0 0 2) (typer None) (py "hello") = py "ello"
  /\ screen_after (forced (1 # 2) 1 0) (typer None) (py "their") = py "tir"
  /\ screen_after (forced (8 # 10) 0 0) (typer None) (py "hello") = py "hllo".
Proof. repeat split; vm_compute; reflexivity. Qed.

(** C2 at its input. For "hello" with a substitution forced at index 0
    and the neighbour 'g', the session types "g", pauses for the correction
    latency, backspaces once and then types "ello", not "hello": the screen
    shows "ello". *)
Theorem substitution_scenario_drops_h :
  type_text (forced 0 0 2) (typer None) (py "hello") initial
  = (Ok tt,
     {| trace :=
          [ Poll false; Poll false;
            TypeChar 103%N; Sleep (54000 # 202500);
            Sleep (150000 # 1000000);
            Press Backspace; Release Backspace; Sleep (45 # 1000);
            Poll false;
            Poll false; TypeChar 101%N; Sleep (54000 # 202500);
            Poll false; TypeChar 108%N; Sleep (54000 # 202500);
            Poll false; TypeChar 108%N; Sleep (54000 # 202500);
            Poll false; TypeChar 111%N; Sleep (54000 # 202500);
            Sleep (25000 # 100000) ];
        draws := 13 |})
  /\ keys_during (forced 0 0 2) (typer None) (py "hello")
     = keys_of (py "g") ++ backspaces 1 ++ keys_of (py "ello")
  /\ screen_after (forced 0 0 2) (typer None) (py "hello") = py "ello".
Proof. repeat split; vm_compute; reflexivity. Qed.

(* ================================================================= *)
(** ** Cancellation *)

(** C4 at an input where it fails. The text is "hi hello", an omission
    typo at index 3 is under way in "hello" and [stop()] is called while
    the session sleeps after the first 'h'.  The next poll observes the
    stop (event 16 of the trace); the injector still backspaces three
    times, which erases "h", the space and the "i" typed before. *)
Theorem backspaces_follow_observed_stop :
  let w := snd (type_text omission_in_second_word (typer (Some 15))
                          (py "hi hello") initial) in
  nth_error (trace w) 16 = Some (Poll true)
  /\ key_actions (skipn 17 (trace w)) = backspaces 3
  /\ quiet_after_stop (trace w) = false
  /\ render (firstn 17 (trace w)) = py "hi h"
  /\ render (trace w) = py "h".
Proof. repeat split; vm_compute; reflexivity. Qed.

(* ================================================================= *)
(** ** Word tokens *)

(** C5 at an input where it fails. The tokenizer makes "a_b" one token, a
    run of word characters, but the session does not take it for a word:
    it types it as any other token, without calling the typo injector or
    the pause scheduler.  Under an oracle that forces a typo and a think
    pause on every word, "a_b" is typed plainly while "a1b" gets both. *)
Theorem underscore_token_is_not_typed_as_word :
  tokenize (py "a_b") = [py "a_b"]
  /\ is_run (py "a_b") = true
  /\ is_word (py "a_b") = false
  /\ (forall rnd self w,
        type_token rnd self (py "a_b") w
        = (base_wpm <- sample_wpm rnd (settings self) ;;
           _type_slow rnd self (py "a_b") base_wpm ;; ret Next) w)
  /\ type_text zeros (typer None) (py "a_b") initial
     = (Ok tt,
        {| trace :=
             [ Poll false;
               Poll false; TypeChar 97%N; Sleep (54000 # 202500);
               Poll false; TypeChar 95%N; Sleep (54000 # 202500);
               Poll false; TypeChar 98%N; Sleep (54000 # 202500) ];
           draws := 4 |})
  /\ keys_during zeros (typer None) (py "a1b")
     = keys_of (py "q") ++ backspaces 1 ++ keys_of (py "1b").
Proof. repeat split; vm_compute; reflexivity. Qed.

(* ================================================================= *)
(** ** Where the specification and the code part *)

(** C6 fails on the code. [HumanTyper.start] with [min_wpm = 0] returns a
    started task, and that task types the text; the window accepts a
    letter-typo percentage of 150 and starts a session with it. *)
Lemma start_accepts_invalid_configuration :
  (min_wpm (settings typer_min_wpm_zero) <= 0)%Q
  /\ start zeros typer_min_wpm_zero (py "hi") 0
     = Ok (Thread (run zeros typer_min_wpm_zero (py "hi") 0))
  /\ fst (run zeros typer_min_wpm_zero (py "hi") 0 initial) = Ok tt
  /\ key_actions (trace (snd (run zeros typer_min_wpm_zero (py "hi") 0 initial)))
     = keys_of (py "hi")
  /\ exists s,
       _read_settings window_typo_150 = ([], Ok s)
       /\ ~ (letter_typo_rate s <= 1)%Q
       /\ on_start zeros true None window_typo_150
          = [ PostStatus;
              Started (Thread (run zeros
                {| settings := s; keyboard := true;
                   stop_event := None; ui_callback := true |}
                (py "hi") 3)) ].
Proof.
  split; [discriminate|]. split; [reflexivity|].
  split; [vm_compute; reflexivity|]. split; [vm_compute; reflexivity|].
  eexists. split; [reflexivity|]. split; [|reflexivity].
  intros H. vm_compute in H. now apply H.
Qed.

(** C7 fails on the code. Without a keyboard, [HumanTyper.start] returns a
    started task and raises nothing; the task posts the countdown, second
    by second, and only then does [type_text] raise. *)
Lemma countdown_runs_before_dependency_error :
  keyboard typer_without_keyboard = false
  /\ start zeros typer_without_keyboard (py "hi") 2
     = Ok (Thread (run zeros typer_without_keyboard (py "hi") 2))
  /\ run zeros typer_without_keyboard (py "hi") 2 initial
     = (Raise RuntimeError,
        {| trace := [ Status ClickIntoTarget;
                      Status (StartsIn 2); Bell; Sleep 1;
                      Status (StartsIn 1); Bell; Sleep 1;
                      Status Typing ];
           draws := 0 |}).
Proof. repeat split. Qed.

(** C8 fails on the code. At 40000 WPM three base delays are 0.0009
    seconds, and the delay is 0.001. *)
Lemma char_delay_above_three_base_delays :
  (1 <= 40000)%Q
  /\ (0 <= jitter_std (settings (typer None)))%Q
  /\ exists d w',
       _char_delay zeros (typer None) 40000 initial = (Ok d, w')
       /\ ~ (1 # 1000 <= d <= secs_per_char_for_wpm 40000 * 3)%Q.
Proof.
  split; [discriminate|]. split; [discriminate|].
  eexists; eexists. split; [reflexivity|].
  intros [_ H]. vm_compute in H. now apply H.
Qed.

(* ================================================================= *)
(** ** The theorems at concrete inputs *)

(** The delay bounds at 60 WPM. *)
Lemma char_delay_bounds_witness :
  (60 <= 36000)%Q
  /\ exists d w',
       _char_delay zeros (typer None) 60 initial = (Ok d, w')
       /\ (1 # 1000 <= d)%Q
       /\ (d <= secs_per_char_for_wpm 60 * 3)%Q.
Proof.
  assert (H60 : (60 <= 36000)%Q) by (unfold Qle; simpl; lia).
  split; [exact H60|].
  destruct (char_delay_bounds zeros (typer None) 60 initial)
    as (d & w' & E & Hlo & _ & Hhi & _).
  exists d, w'. split; [exact E|]. split; [exact Hlo | exact (Hhi H60)].
Defined.

(** No typo on "ab", no transposition on "cat". *)
Lemma no_typo_on_short_words_witness :
  length (py "cat") < 4
  /\ typo zeros (typer None) Transposition (py "cat") 60 initial
     = (Ok (false, [], 0), initial)
  /\ (exists w',
        _maybe_letter_typo (forced (1 # 2) 0 0) (typer None) (py "cat") 60
          {| trace := []; draws := 1 |}
        = (Ok (false, [], 0), w')
        /\ trace w' = [])
  /\ _maybe_letter_typo zeros (typer None) (py "ab") 60 initial
     = (Ok (false, [], 0), initial).
Proof.
  assert (Hcat : length (py "cat") < 4) by (simpl; lia).
  assert (Hab : length (py "ab") < 4) by (simpl; lia).
  split; [exact Hcat|]. split; [|split].
  - exact (proj1 (@no_typo_on_short_words ascii_tables zeros (typer None)
                    (py "cat") 60 initial Hcat)).
  - refine (proj1 (proj2 (@no_typo_on_short_words ascii_tables
                            (forced (1 # 2) 0 0) (typer None) (py "cat") 60
                            {| trace := []; draws := 1 |} Hcat))
              0%Q {| trace := []; draws := 2 |} {| trace := []; draws := 3 |}
              _ _); reflexivity.
  - apply (proj2 (proj2 (@no_typo_on_short_words ascii_tables zeros
                           (typer None) (py "ab") 60 initial Hab))).
    simpl; lia.
Defined.

(** An omission at index 2 of "hello". *)
Lemma omission_restores_word_witness :
  3 <= length (py "hello")
  /\ randint (forced (95 # 100) 1 0) 1 (length (py "hello") - 2)
       {| trace := []; draws := 3 |}
     = (Ok 2, {| trace := []; draws := 4 |})
  /\ exists w5,
       type_word (forced (95 # 100) 1 0) (typer None) (py "hello") 60
         {| trace := []; draws := 1 |}
       = (Ok Next, w5)
       /\ render (trace w5) = py "hello".
Proof.
  assert (Hlen : 3 <= length (py "hello")) by (simpl; lia).
  split; [exact Hlen|]. split; [reflexivity|].
  destruct (@omission_restores_word ascii_tables (forced (95 # 100) 1 0)
              (typer None) eq_refl eq_refl (py "hello") 60
              {| trace := []; draws := 1 |} {| trace := []; draws := 2 |}
              {| trace := []; draws := 3 |} {| trace := []; draws := 4 |}
              0%Q 2 eq_refl Hlen eq_refl eq_refl eq_refl eq_refl)
    as (_ & w4 & es & _ & T4 & _ & w5 & es' & E5 & T5 & _ & Hscreen).
  exists w5. split; [exact E5|].
  unfold render. rewrite T5, T4. exact (Hscreen []).
Defined.

(** The window with a minimum WPM of 0. *)
Lemma invalid_wpm_is_rejected_by_the_window_witness :
  (0 <= 0 \/ 70 < 0)%Q
  /\ snd (_read_settings window_min_wpm_zero) = Raise ValueError
  /\ exists d,
       on_start zeros true None window_min_wpm_zero = [ShowWarning d]
       \/ on_start zeros true None window_min_wpm_zero = [ShowError d].
Proof.
  assert (Hbad : (0 <= 0 \/ 70 < 0)%Q) by (left; unfold Qle; simpl; lia).
  split; [exact Hbad|].
  destruct (@invalid_wpm_is_rejected_by_the_window ascii_tables zeros true
              None window_min_wpm_zero 0%Q 70%Q eq_refl eq_refl Hbad)
    as (Hread & Hshown & _).
  split; [exact Hread | exact Hshown].
Defined.

(** A session of "hi" with a countdown of 2 and no keyboard. *)
Lemma no_typing_without_keyboard_witness :
  keyboard typer_without_keyboard = false
  /\ run zeros typer_without_keyboard (py "hi") 2 initial
     = (Raise RuntimeError,
        {| trace := trace initial ++ preamble true 2; draws := 0 |})
  /\ key_actions (preamble true 2) = [].
Proof.
  split; [reflexivity|].
  destruct (@no_typing_without_keyboard ascii_tables zeros
              typer_without_keyboard (py "hi") 2 eq_refl)
    as (_ & Hrun & Hkeys & _).
  split; [exact (Hrun initial) | exact Hkeys].
Defined.

(* ================================================================= *)
(** * Further properties of the engine *)

(* ================================================================= *)
(** ** Line endings *)

Section NormalizeFacts.
Context {U : Unicode}.

Lemma replace_cr_free (text : str) : ~ In CR (replace_cr text).
Proof.
  unfold replace_cr. intros Hin. apply in_map_iff in Hin.
  destruct Hin as (c & Hc & _).
  destruct (N.eqb_spec c CR) as [_|Hne]; [discriminate Hc | now apply Hne].
Qed.

Lemma replace_cr_id (text : str) : ~ In CR text -> replace_cr text = text.
Proof.
  induction text as [|c text IH]; intros Hfree; [reflexivity|].
  simpl. destruct (N.eqb_spec c CR) as [->|_].
  - exfalso. apply Hfree. now left.
  - f_equal. apply IH. intros Hin. apply Hfree. now right.
Qed.

Lemma replace_crlf_id (text : str) : ~ In CR text -> replace_crlf text = text.
Proof.
  induction text as [|c text IH]; intros Hfree; [reflexivity|].
  assert (Hc : N.eqb c CR = false).
  { apply N.eqb_neq. intros ->. apply Hfree. now left. }
  assert (IH' : replace_crlf text = text).
  { apply IH. intros Hin. apply Hfree. now right. }
  destruct text as [|d text]; [reflexivity|].
  cbn [replace_crlf] in *. rewrite Hc. cbn [andb]. now rewrite IH'.
Qed.

Lemma replace_crlf_length (text : str) :
  length (replace_crlf text) <= length text.
Proof.
  assert (H : forall n text, length text <= n ->
                             length (replace_crlf text) <= length text).
  { clear text. induction n as [|n IH]; intros text Hn.
    - destruct text; [simpl; lia | simpl in Hn; lia].
    - destruct text as [|c [|d text]]; [simpl; lia | simpl; lia |].
      cbn [length] in Hn.
      assert (H1 : length text <= n) by lia.
      assert (H2 : length (d :: text) <= n) by (cbn [length]; lia).
      apply IH in H1. apply IH in H2.
      change (replace_crlf (c :: d :: text))
        with (if N.eqb c CR && N.eqb d LF then LF :: replace_crlf text
              else c :: replace_crlf (d :: text)).
      destruct (N.eqb c CR && N.eqb d LF); cbn [length] in *; lia. }
  now apply (H (length text)).
Qed.

(** X1. After normalization no carriage return is left in the text, the
    text is not longer than before, and normalizing again changes
    nothing. *)
Theorem normalize_leaves_no_carriage_return (text : str) :
  ~ In CR (normalize text)
  /\ length (normalize text) <= length text
  /\ normalize (normalize text) = normalize text.
Proof.
  assert (Hfree : ~ In CR (normalize text)) by apply replace_cr_free.
  split; [exact Hfree|]. split.
  - unfold normalize, replace_cr. rewrite length_map.
    apply replace_crlf_length.
  - unfold normalize at 1. rewrite (replace_crlf_id _ Hfree).
    now apply replace_cr_id.
Qed.

End NormalizeFacts.

(* ================================================================= *)
(** ** Speed *)



(** X3. When the minimum WPM is at most the maximum, the WPM sampled for
    a token lies between them; sampling takes one draw and does nothing
    else. *)
Theorem sample_wpm_in_range (rnd : oracle) (s : Settings) (w : world) :
  unit_range rnd ->
  (min_wpm s <= max_wpm s)%Q ->
  exists wpm,
    sample_wpm rnd s w = (Ok wpm, {| trace := trace w; draws := S (draws w) |})
    /\ (min_wpm s <= wpm <= max_wpm s)%Q.
Proof.
  intros Hunit Hle. eexists. split; [reflexivity|].
  destruct (Hunit (draws w)) as [H0 H1].
  set (u := unit_draw rnd (draws w)) in *.
  set (a := min_wpm s) in *. set (b := max_wpm s) in *.
  assert (Hd : (0 <= b - a)%Q) by lra.
  assert (Hlo : (0 <= (b - a) * u)%Q) by (apply Qmult_le_0_compat; assumption).
  assert (Hhi : ((b - a) * u <= (b - a) * 1)%Q)
    by (apply Qmult_le_compat_nonneg; split; lra).
  split; lra.
Qed.

(* ================================================================= *)
(** ** Sequencing commands *)

Lemma does_weaken {A} (m : M A) (w : world) (P Q : A -> list event -> Prop) :
  does m w P -> (forall a es, P a es -> Q a es) -> does m w Q.
Proof.
  intros (a & w' & es & E & T & HP) HPQ. exists a, w', es. auto.
Qed.

Lemma does_ret {A} (a : A) (w : world) (P : A -> list event -> Prop) :
  P a [] -> does (ret a) w P.
Proof. intros HP. exists a, w, []. now rewrite app_nil_r. Qed.

Lemma does_bind {A B} (m : M A) (k : A -> M B) (w : world)
  (P : A -> list event -> Prop) (Q : B -> list event -> Prop) :
  does m w P ->
  (forall a es w', P a es -> does (k a) w' (fun b es' => Q b (es ++ es'))) ->
  does (bind m k) w Q.
Proof.
  intros (a & w1 & es1 & E1 & T1 & HP) Hk.
  destruct (Hk a es1 w1 HP) as (b & w2 & es2 & E2 & T2 & HQ).
  exists b, w2, (es1 ++ es2). repeat split.
  - now rewrite (bind_ok m k w w1 a E1).
  - now rewrite T2, T1, app_assoc.
  - exact HQ.
Qed.

Lemma does_emit (e : event) (w : world) (P : unit -> list event -> Prop) :
  P tt [e] -> does (emit e) w P.
Proof.
  intros HP.
  exists tt, {| trace := trace w ++ [e]; draws := draws w |}, [e].
  now repeat split.
Qed.

Lemma does_draw {A} (f : nat -> A) (w : world)
  (P : A -> list event -> Prop) :
  P (f (draws w)) [] -> does (draw f) w P.
Proof.
  intros HP.
  exists (f (draws w)), {| trace := trace w; draws := S (draws w) |}, [].
  repeat split; [|exact HP]. simpl. now rewrite app_nil_r.
Qed.

Lemma does_performs {A} (m : M A) (w : world) (a : A) (keys : list event) :
  performs m w a keys ->
  does m w (fun a' es => a' = a /\ key_actions es = keys).
Proof.
  intros (w' & es & E & T & K). exists a, w', es. auto.
Qed.

(** [next P] splits a sequence: the first command is specified by [P],
    the rest is left as a goal with the result and events of the first. *)
Ltac next P := eapply (does_bind _ _ _ P); [| intros ? ? ? ?].

Lemma does_uniform (rnd : oracle) (a b : Q) (w : world)
  (P : Q -> list event -> Prop) :
  P (a + (b - a) * unit_draw rnd (draws w))%Q [] ->
  does (uniform rnd a b) w P.
Proof.
  intros HP. unfold uniform, random.
  next (fun u (es : list event) => u = unit_draw rnd (draws w) /\ es = []).
  - now apply does_draw.
  - destruct H as [-> ->]. now apply does_ret.
Qed.


(* ================================================================= *)
(** ** Neighbouring keys *)

Lemma dict_get_In (d : list (str * str)) (k v : str) :
  dict_get d k = Some v -> In (k, v) d.
Proof.
  induction d as [|[k' v'] d IH]; [discriminate|].
  simpl. unfold str_eqb. destruct (list_eq_dec N.eq_dec k k') as [->|_].
  - intros E. injection E as ->. now left.
  - intros E. right. now apply IH.
Qed.

Lemma choice_In {A} (rnd : oracle) (x : A) (xs : list A) (w : world) :
  exists c,
    choice rnd (x :: xs) w = (Ok c, {| trace := trace w; draws := S (draws w) |})
    /\ In c (x :: xs).
Proof.
  eexists. split; [reflexivity|].
  apply nth_In. apply Nat.mod_upper_bound. discriminate.
Qed.

Section AdjacentKeyFacts.
Context {U : Unicode}.
Variable rnd : oracle.

Lemma adjacent_key_run (ch : char) (w : world) :
  exists c,
    adjacent_key rnd ch w
    = (Ok c, {| trace := trace w; draws := S (draws w) |})
    /\ ((exists ns n,
           dict_get QWERTY_NEIGHBORS (lower ch) = Some ns
           /\ In n ns /\ c = keep_case ch n)
        \/ (dict_get QWERTY_NEIGHBORS (lower ch) = None
            /\ exists p, In p pool /\ c = if isupper ch then upper p else p)).
Proof.
  unfold adjacent_key.
  destruct (dict_get QWERTY_NEIGHBORS (lower ch)) as [[|n ns]|] eqn:Hget.
  - (* no key of the table has an empty list *)
    exfalso. apply dict_get_In in Hget.
    assert (Hne : forallb (fun kv => negb (str_eqb (snd kv) []))
                    QWERTY_NEIGHBORS = true) by (vm_compute; reflexivity).
    rewrite forallb_forall in Hne. specialize (Hne _ Hget).
    discriminate Hne.
  - destruct (choice_In rnd n ns w) as (c & E & Hin).
    exists (keep_case ch c). split.
    + now rewrite (bind_ok _ _ _ _ _ E).
    + left. exists (n :: ns), c. auto.
  - destruct (choice_In rnd (hd 0%N pool) (tl pool) w) as (c & E & Hin).
    exists (if isupper ch then upper c else c). split.
    + change pool with (hd 0%N pool :: tl pool).
      now rewrite (bind_ok _ _ _ _ _ E).
    + right. split; [reflexivity|]. now exists c.
Qed.

(** X4. [adjacent_key] never raises and leaves the trace alone.  Its
    answer is drawn from the neighbours of the lower-cased character when
    that is a key of the table, from the alphabet otherwise, and it is
    upper-cased when the character is upper case. *)
Theorem adjacent_key_picks_a_neighbour (ch : char) (w : world) :
  does (adjacent_key rnd ch) w
       (fun c es =>
          es = []
          /\ exists n,
               In n (match dict_get QWERTY_NEIGHBORS (lower ch) with
                     | Some ns => ns
                     | None => pool
                     end)
               /\ c = if isupper ch then upper n else n).
Proof.
  destruct (adjacent_key_run ch w) as (c & E & Hc).
  exists c, {| trace := trace w; draws := S (draws w) |}, [].
  split; [exact E|]. split; [simpl; now rewrite app_nil_r|].
  split; [reflexivity|].
  destruct Hc as [(ns & n & Hget & Hin & ->) | (Hget & p & Hp & ->)];
    rewrite Hget.
  - exists n. split; [exact Hin | reflexivity].
  - exists p. split; [exact Hp | reflexivity].
Qed.

End AdjacentKeyFacts.

Lemma pool_range (k : char) : (97 <= k <= 122)%N -> In k pool.
Proof.
  intros Hk.
  assert (Hpool : pool = map N.of_nat (seq 97 26)) by reflexivity.
  rewrite Hpool. apply in_map_iff. exists (N.to_nat k). split.
  - apply N2Nat.id.
  - apply in_seq. lia.
Qed.

Lemma ascii_upper_range (c : char) :
  is_ascii_upper c = true <-> (65 <= c <= 90)%N.
Proof.
  unfold is_ascii_upper. rewrite andb_true_iff, !N.leb_le. reflexivity.
Qed.

Lemma ascii_lower_range (c : char) :
  is_ascii_lower c = true <-> (97 <= c <= 122)%N.
Proof.
  unfold is_ascii_lower. rewrite andb_true_iff, !N.leb_le. reflexivity.
Qed.

(** X5. On ASCII text the character that [adjacent_key] answers is never
    the character it was asked about: a substitution typo always types a
    wrong character. *)
Theorem adjacent_key_differs (rnd : oracle) (ch : char) (w : world) :
  (ch < 128)%N ->
  exists c w',
    adjacent_key (U := ascii_tables) rnd ch w = (Ok c, w') /\ c <> ch.
Proof.
  intros _.
  destruct (adjacent_key_run (U := ascii_tables) rnd ch w)
    as (c & E & Hc).
  exists c. eexists. split; [exact E|].
  cbn [isupper lower ascii_tables] in Hc. unfold keep_case in Hc.
  cbn [isupper ascii_tables] in Hc. unfold ascii_lower in Hc.
  destruct Hc as [(ns & n & Hget & Hin & ->) | (Hget & p & Hp & ->)].
  - apply dict_get_In in Hget.
    assert (Htable :
      forallb (fun kv =>
                 forallb (fun n => negb (str_eqb [n] (fst kv))
                                   && negb (is_ascii_upper n)) (snd kv))
              QWERTY_NEIGHBORS = true) by (vm_compute; reflexivity).
    rewrite forallb_forall in Htable. specialize (Htable _ Hget).
    cbn [fst snd] in Htable. rewrite forallb_forall in Htable.
    specialize (Htable _ Hin). apply andb_true_iff in Htable.
    destruct Htable as [Hkey Hnot_upper].
    apply negb_true_iff in Hkey, Hnot_upper.
    unfold str_eqb in Hkey.
    destruct (is_ascii_upper ch) eqn:Hup.
    + apply ascii_upper_range in Hup. unfold upper.
      destruct (is_ascii_lower n) eqn:Hlow.
      * apply ascii_lower_range in Hlow. intros Heq.
        destruct (list_eq_dec N.eq_dec [n] [(ch + 32)%N]) as [_|Hne];
          [discriminate|].
        apply Hne. f_equal. lia.
      * intros ->. apply ascii_upper_range in Hup.
        rewrite Hup in Hnot_upper. discriminate.
    + intros ->.
      destruct (list_eq_dec N.eq_dec [ch] [ch]) as [_|Hne];
        [discriminate | now apply Hne].
  - assert (Hletters :
      forallb (fun p => match dict_get QWERTY_NEIGHBORS [p] with
                        | Some _ => true
                        | None => false
                        end) pool = true) by (vm_compute; reflexivity).
    rewrite forallb_forall in Hletters.
    destruct (is_ascii_upper ch) eqn:Hup.
    + exfalso. apply ascii_upper_range in Hup.
      assert (Hin : In (ch + 32)%N pool) by (apply pool_range; lia).
      specialize (Hletters _ Hin). cbv beta in Hletters.
      destruct (dict_get QWERTY_NEIGHBORS _) eqn:D in Hletters;
        [|discriminate Hletters].
      discriminate (eq_trans (eq_sym D) Hget).
    + intros ->. specialize (Hletters _ Hp). cbv beta in Hletters.
      destruct (dict_get QWERTY_NEIGHBORS _) eqn:D in Hletters;
        [|discriminate Hletters].
      discriminate (eq_trans (eq_sym D) Hget).
Qed.

(** A substitution for the letter h. *)
Lemma adjacent_key_differs_witness :
  (104 < 128)%N
  /\ exists c w',
       adjacent_key (U := ascii_tables) zeros 104%N initial = (Ok c, w')
       /\ c <> 104%N.
Proof.
  assert (H : (104 < 128)%N) by reflexivity.
  split; [exact H | exact (adjacent_key_differs zeros 104%N initial H)].
Defined.

(* ================================================================= *)
(** ** Which tokens are words *)

Section WordFacts.
Context {U : Unicode}.
Hypothesis apostrophe_not_alnum : isalnum APOSTROPHE = false.
Hypothesis underscore_not_alnum : isalnum UNDERSCORE = false.

Let not_apostrophe (c : char) : bool := negb (N.eqb c APOSTROPHE).

Lemma run_anatomy (t : str) :
  forallb word_char t = true ->
  forallb isalnum t
  = negb (char_in APOSTROPHE t) && negb (char_in UNDERSCORE t)
  /\ forallb isalnum (filter not_apostrophe t) = negb (char_in UNDERSCORE t)
  /\ (match filter not_apostrophe t with [] => false | _ :: _ => true end)
     = existsb isalnum t || char_in UNDERSCORE t.
Proof.
  induction t as [|c t IH]; intros Hrun; [now repeat split|].
  cbn [forallb] in Hrun. apply andb_true_iff in Hrun.
  destruct Hrun as [Hc Ht]. destruct (IH Ht) as (IH1 & IH2 & IH3).
  unfold word_char in Hc. unfold char_in in *. unfold not_apostrophe in *.
  cbn [forallb existsb filter].
  rewrite (N.eqb_sym APOSTROPHE c), (N.eqb_sym UNDERSCORE c).
  destruct (N.eqb_spec c APOSTROPHE) as [->|Hna].
  - rewrite apostrophe_not_alnum. cbn. repeat split; assumption.
  - destruct (N.eqb_spec c UNDERSCORE) as [->|Hnu].
    + rewrite underscore_not_alnum. cbn.
      rewrite underscore_not_alnum.
      repeat split; try reflexivity.
      * now rewrite andb_false_r.
      * now rewrite orb_true_r.
    + cbn in Hc. rewrite orb_false_r in Hc. rewrite Hc. cbn. rewrite Hc.
      cbn. repeat split; assumption.
Qed.

(** X6. Among the word tokens of the tokenizer (non-empty runs of
    alphanumerics, apostrophes and underscores), the session treats as a
    word exactly those that hold no underscore and at least one
    alphanumeric character. *)
Theorem word_tokens_treated_as_words (token : str) :
  is_run token = true ->
  is_word token
  = negb (char_in UNDERSCORE token) && existsb isalnum token.
Proof.
  intros Hrun. destruct token as [|c t]; [discriminate|].
  change (forallb word_char (c :: t) = true) in Hrun.
  destruct (run_anatomy (c :: t) Hrun) as (H1 & H2 & H3).
  assert (Hsome : existsb isalnum (c :: t) || char_in APOSTROPHE (c :: t)
                  || char_in UNDERSCORE (c :: t) = true).
  { cbn [forallb] in Hrun. apply andb_true_iff in Hrun.
    destruct Hrun as [Hc _]. unfold word_char in Hc. unfold char_in.
    cbn [existsb].
    rewrite (N.eqb_sym APOSTROPHE c), (N.eqb_sym UNDERSCORE c).
    destruct (isalnum c), (N.eqb c APOSTROPHE), (N.eqb c UNDERSCORE);
      try discriminate; cbn; rewrite ?orb_true_r; reflexivity. }
  assert (Hsplit : forall s,
            str_isalnum s
            = (match s with [] => false | _ :: _ => true end)
              && forallb isalnum s) by (now intros [|? ?]).
  change (is_word (c :: t))
    with (str_isalnum (c :: t)
          || (char_in APOSTROPHE (c :: t)
              && str_isalnum (filter not_apostrophe (c :: t)))).
  rewrite !Hsplit, H1, H2, H3.
  destruct (char_in APOSTROPHE (c :: t)), (char_in UNDERSCORE (c :: t)),
    (existsb isalnum (c :: t)); cbn in *; congruence.
Qed.

End WordFacts.

(* ================================================================= *)
(** ** Typing, erasing and pausing, whenever the stop may come *)

Tactic Notation "next" constr(P) "as" ident(a) ident(es) ident(H) :=
  eapply (does_bind _ _ _ P); [| intros a es ? H].

Lemma adds_keys (s : str) (es : list event) :
  key_actions es = keys_of s -> adds s es.
Proof.
  intros K screen. now rewrite <- render_from_keys, K, render_keys_of.
Qed.

Lemma adds_app (s1 s2 : str) (es1 es2 : list event) :
  adds s1 es1 -> adds s2 es2 -> adds (s1 ++ s2) (es1 ++ es2).
Proof.
  intros H1 H2 screen. now rewrite render_from_app, H1, H2, app_assoc.
Qed.

Lemma key_actions_key_of (c : char) : key_actions (key_of c) = key_of c.
Proof. unfold key_of. now destruct (N.eqb c LF). Qed.

Lemma render_backspaces_any (n : nat) :
  forall screen,
    render_from screen (backspaces n) = firstn (length screen - n) screen.
Proof.
  induction n as [|n IH]; intros screen.
  - simpl. now rewrite Nat.sub_0_r, firstn_all.
  - change (render_from screen (backspaces (S n)))
      with (render_from (removelast screen) (backspaces n)).
    rewrite IH, removelast_firstn_len, firstn_firstn, length_firstn.
    f_equal. lia.
Qed.

Section CancellableFacts.
Context {U : Unicode}.
Variable rnd : oracle.
Variable self : HumanTyper.

Lemma does_is_set (w : world) (P : bool -> list event -> Prop) :
  (forall b, (stop_event self = None -> b = false) -> P b [Poll b]) ->
  does (is_set self) w P.
Proof.
  intros HP. unfold is_set.
  set (b := match stop_event self with
            | Some t => t <=? length (trace w)
            | None => false
            end).
  exists b, {| trace := trace w ++ [Poll b]; draws := draws w |}, [Poll b].
  split; [reflexivity|]. split; [reflexivity|].
  apply HP. subst b. now intros ->.
Qed.

Lemma does_type_char (c : char) (w : world) :
  does (_type_char self c) w
       (fun _ es => es = if keyboard self then key_of c else []).
Proof.
  unfold _type_char, key_of. destruct (keyboard self); cbn [negb].
  - destruct (N.eqb c LF).
    + next (fun (_ : unit) es => es = [Press Enter]) as u es H.
      * now apply does_emit.
      * subst es. now apply does_emit.
    + now apply does_emit.
  - now apply does_ret.
Qed.

Lemma does_char_delay (base_wpm : Q) (w : world) :
  does (_char_delay rnd self base_wpm) w (fun _ es => es = []).
Proof.
  eexists; eexists; exists []. rewrite char_delay_run.
  split; [reflexivity|]. split; [|reflexivity].
  simpl. now rewrite app_nil_r.
Qed.

(** X7. Whenever the stop is requested, [_type_slow] does not raise and
    what it has typed is a prefix of its text, one character at a time;
    when the stop is never requested it types the whole text. *)
Theorem type_slow_types_a_prefix (text : str) (base_wpm : Q) :
  keyboard self = true ->
  forall w,
    does (_type_slow rnd self text base_wpm) w
         (fun _ es =>
            exists n,
              n <= length text
              /\ key_actions es = keys_of (firstn n text)
              /\ adds (firstn n text) es
              /\ (stop_event self = None -> n = length text)).
Proof.
  intros Hk.
  assert (Hgoal : forall w,
    does (_type_slow rnd self text base_wpm) w
         (fun _ es =>
            exists n,
              n <= length text
              /\ key_actions es = keys_of (firstn n text)
              /\ (stop_event self = None -> n = length text))).
  { induction text as [|ch rest IH]; intros w.
    - apply does_ret. exists 0. repeat split; auto.
    - cbn [_type_slow].
      next (fun b es => es = [Poll b] /\ (stop_event self = None -> b = false))
        as stop es0 H0.
      { apply does_is_set. auto. }
      destruct H0 as [-> Hstop]. destruct stop.
      + apply does_ret. exists 0. repeat split; [cbn; lia|].
        intros Hs. now specialize (Hstop Hs).
      + next (fun (_ : unit) es => es = key_of ch) as u1 es1 H1.
        { eapply does_weaken; [apply does_type_char|].
          cbv beta. now rewrite Hk. }
        subst es1.
        next (fun (_ : Q) (es : list event) => es = []) as d es2 H2.
        { apply does_char_delay. }
        subst es2.
        next (fun (_ : unit) es => es = [Sleep d]) as u3 es3 H3.
        { now apply does_emit. }
        subst es3.
        eapply does_weaken; [apply IH|].
        intros _ es (n & Hn & K & Hfull). exists (S n).
        split; [cbn; lia|]. split.
        * rewrite !key_actions_app, K, key_actions_key_of. reflexivity.
        * intros Hs. cbn. now rewrite (Hfull Hs). }
  intros w. eapply does_weaken; [apply Hgoal|].
  intros _ es (n & Hn & K & Hfull). exists n.
  repeat split; auto. now apply adds_keys.
Qed.

Lemma does_backspace_loop (n : nat) (delay : Q) :
  forall w,
    does (backspace_loop n delay) w
         (fun _ es => existsb is_poll es = false
                      /\ key_actions es = backspaces n).
Proof.
  induction n as [|n IH]; intros w.
  - apply does_ret. now split.
  - cbn [backspace_loop].
    next (fun (_ : unit) es => es = [Press Backspace]) as u1 es1 H1.
    { now apply does_emit. }
    subst es1.
    next (fun (_ : unit) es => es = [Release Backspace]) as u2 es2 H2.
    { now apply does_emit. }
    subst es2.
    next (fun (_ : unit) es => es = [Sleep delay]) as u3 es3 H3.
    { now apply does_emit. }
    subst es3.
    eapply does_weaken; [apply IH|].
    intros _ es [Hp K]. split.
    + cbn. exact Hp.
    + rewrite !key_actions_app, K. reflexivity.
Qed.

(** X8. [_backspace(n)] never looks at the stop event: whenever the stop
    is requested it presses and releases Backspace [n] times, which
    erases the last [n] characters of the screen (all of it when it holds
    fewer).  Without a keyboard it does nothing. *)
Theorem backspace_erases_n_characters (n : nat) (delay : Q) (w : world) :
  does (_backspace self n delay) w
       (fun _ es =>
          existsb is_poll es = false
          /\ key_actions es = (if keyboard self then backspaces n else [])
          /\ forall screen,
               render_from screen es
               = if keyboard self then firstn (length screen - n) screen
                 else screen).
Proof.
  unfold _backspace. destruct (keyboard self); cbn [negb].
  - eapply does_weaken; [apply does_backspace_loop|].
    intros _ es [Hp K]. repeat split; auto.
    intros screen. now rewrite <- render_from_keys, K, render_backspaces_any.
  - apply does_ret. now repeat split.
Qed.

End CancellableFacts.

(* ================================================================= *)
(** ** Pauses *)

Section PauseFacts.
Context {U : Unicode}.
Variable rnd : oracle.
Variable self : HumanTyper.
Hypothesis unit_draws : unit_range rnd.



End PauseFacts.

(* ================================================================= *)
(** ** The injector's outcome, whenever the stop may come *)

Lemma does_randint (rnd : oracle) (a b : nat) (w : world) :
  a <= b ->
  does (randint rnd a b) w (fun i es => es = [] /\ a <= i <= b).
Proof.
  intros Hab. unfold randint.
  replace (b <? a) with false by (symmetry; apply Nat.ltb_ge; exact Hab).
  next (fun k (es : list event) => es = [] /\ k < b + 1 - a) as k es H.
  - apply does_draw. split; [reflexivity|].
    apply Nat.mod_upper_bound. lia.
  - destruct H as [-> Hk]. apply does_ret. split; [reflexivity | lia].
Qed.

Section OutcomeFacts.
Context {U : Unicode}.
Variable rnd : oracle.
Variable self : HumanTyper.

Lemma does_index (word : str) (i : nat) (w : world) :
  i < length word ->
  does (index word i) w (fun c es => es = [] /\ nth_error word i = Some c).
Proof.
  intros Hi. unfold index.
  destruct (nth_error word i) as [c|] eqn:Hc.
  - now apply does_ret.
  - apply nth_error_None in Hc. lia.
Qed.










End OutcomeFacts.

(* ================================================================= *)
(** ** A session never raises *)

Lemma punctuation_cases (c : char) :
  char_in c PUNCTUATION_SET = true ->
  c = 44%N \/ c = 46%N \/ c = 33%N \/ c = 63%N \/ c = 59%N \/ c = 58%N.
Proof.
  unfold char_in. change PUNCTUATION_SET with [44; 46; 33; 63; 59; 58]%N.
  cbn [existsb]. rewrite !orb_true_iff, !N.eqb_eq.
  intuition discriminate.
Qed.

(** The marks other than [punct], for a mark [punct]: there are some, each
    is one character of the set and none is [punct]. *)
Lemma candidates_of_mark (punct : str) :
  in_punctuation_set punct = true ->
  exists x xs,
    filter (fun p => negb (str_eqb p punct))
           (map (fun c => [c]) PUNCTUATION_SET) = x :: xs
    /\ Forall (fun p => exists c, p = [c]
                                  /\ char_in c PUNCTUATION_SET = true
                                  /\ p <> punct) (x :: xs).
Proof.
  destruct punct as [|c [|c' punct]]; try discriminate.
  cbn [in_punctuation_set]. intros Hc.
  destruct (punctuation_cases c Hc) as [-> | [-> | [-> | [-> | [-> | ->]]]]];
    (eexists; eexists; split; [vm_compute; reflexivity|]);
    repeat constructor;
    (eexists; split; [reflexivity|]; split; [reflexivity | discriminate]).
Qed.

Section SessionFacts.
Context {U : Unicode}.
Variable rnd : oracle.
Variable self : HumanTyper.









End SessionFacts.

(* ================================================================= *)
(** ** What reaches the screen when the session is not stopped *)

Lemma adds_nothing (es : list event) : key_actions es = [] -> adds [] es.
Proof. intros K. now apply adds_keys. Qed.

(** Typing [p ++ x] and erasing as many characters as [x] has leaves [p]. *)
Lemma adds_correction (p x : str) (es : list event) :
  key_actions es = keys_of (p ++ x) ++ backspaces (length x) ->
  adds p es.
Proof.
  intros K screen.
  rewrite <- render_from_keys, K, render_from_app, render_keys_of.
  rewrite app_assoc. apply render_backspaces.
Qed.

Section QuietFacts.
Context {U : Unicode}.
Variable rnd : oracle.
Variable self : HumanTyper.
Hypothesis has_keyboard : keyboard self = true.
Hypothesis never_stopped : stop_event self = None.

Lemma quiet_poll (w : world) :
  does (is_set self) w (fun b es => b = false /\ key_actions es = []).
Proof. apply does_performs, performs_is_set, never_stopped. Qed.

Lemma typed_fully (text : str) (base_wpm : Q) (w : world) :
  does (_type_slow rnd self text base_wpm) w
       (fun _ es => key_actions es = keys_of text).
Proof.
  eapply does_weaken.
  - apply does_performs, performs_type_slow; assumption.
  - now intros _ es [_ K].
Qed.

Lemma quiet_mistake (w : world) :
  does (realize_mistake rnd self) w (fun _ es => key_actions es = []).
Proof.
  eapply does_weaken.
  - apply does_performs, performs_realize_mistake.
  - now intros _ es [_ K].
Qed.

Lemma erased (n : nat) (w : world) :
  does (_backspace self n default_delay) w
       (fun _ es => key_actions es = backspaces n).
Proof.
  eapply does_weaken.
  - apply does_performs, performs_backspace, has_keyboard.
  - now intros _ es [_ K].
Qed.

(** Type [typed], realize the mistake, backspace [n] times, return [r]. *)
Lemma corrected {A} (typed : str) (n : nat) (base_wpm : Q) (r : A)
  (w : world) :
  does (_type_slow rnd self typed base_wpm ;;
        realize_mistake rnd self ;;
        _backspace self n default_delay ;;
        ret r) w
       (fun r' es => r' = r /\ key_actions es = keys_of typed ++ backspaces n).
Proof.
  next (fun (_ : unit) es => key_actions es = keys_of typed) as u1 es1 H1.
  { apply typed_fully. }
  next (fun (_ : unit) es => key_actions es = []) as u2 es2 H2.
  { apply quiet_mistake. }
  next (fun (_ : unit) es => key_actions es = backspaces n) as u3 es3 H3.
  { apply erased. }
  apply does_ret. split; [reflexivity|].
  now rewrite !key_actions_app, H1, H2, H3, app_nil_r.
Qed.

(** What a typo block returns and leaves on screen. *)
Let net (word : str) (r : bool * str * nat) (es : list event) : Prop :=
  let '(did_typo, typed, n) := r in
  if (did_typo : bool)
  then exists j m,
         m <= 2 /\ j <= length word /\ length typed = j + m
         /\ adds (upto word j) es
  else typed = [] /\ key_actions es = [].

Lemma randint_quiet (a b : nat) (w : world) :
  a <= b ->
  does (randint rnd a b) w (fun i es => key_actions es = [] /\ a <= i <= b).
Proof.
  intros Hab. eapply does_weaken; [now apply does_randint|].
  now intros i es [-> Hi].
Qed.

Lemma index_quiet (word : str) (i : nat) (w : world) :
  i < length word ->
  does (index word i) w (fun _ es => key_actions es = []).
Proof.
  intros Hi. eapply does_weaken; [now apply (does_index word i w)|].
  now intros c es [-> _].
Qed.

Lemma adjacent_key_quiet (ch : char) (w : world) :
  does (adjacent_key rnd ch) w (fun _ es => key_actions es = []).
Proof.
  destruct (adjacent_key_run rnd ch w) as (c & E & _).
  exists c, {| trace := trace w; draws := S (draws w) |}, [].
  split; [exact E|]. split; [simpl; now rewrite app_nil_r | reflexivity].
Qed.

(** A block whose key actions type [p ++ x] and then backspace as many
    times as [x] has characters leaves [p]. *)
Lemma net_of_correction (word p x : str) (j m : nat) (es : list event) :
  key_actions es = keys_of (p ++ x) ++ backspaces (length x) ->
  p = upto word j -> m = length x -> m <= 2 -> j <= length word ->
  length p = j ->
  net word (true, p ++ x, length x) es.
Proof.
  intros K -> -> Hm Hj Hp. exists j, (length x).
  split; [exact Hm|]. split; [exact Hj|].
  split; [rewrite length_app; lia|].
  now apply (adds_correction _ x).
Qed.

Lemma typo_net (kind : typo_type) (word : str) (base_wpm : Q) (w : world) :
  3 <= length word ->
  does (typo rnd self kind word base_wpm) w (net word).
Proof.
  intros Hlen. unfold typo. destruct kind.
  - (* substitution *)
    next (fun i es => key_actions es = [] /\ 0 <= i <= length word - 1)
      as i es0 H0.
    { apply randint_quiet. lia. }
    destruct H0 as [K0 Hi].
    next (fun (_ : char) es => key_actions es = []) as c es1 H1.
    { apply index_quiet. lia. }
    next (fun (_ : char) es => key_actions es = []) as wrong es2 H2.
    { apply adjacent_key_quiet. }
    eapply does_weaken; [apply corrected|].
    intros r es [-> K].
    apply (net_of_correction word (upto word i) [wrong] i 1); auto.
    + now rewrite !key_actions_app, K0, H1, H2, K.
    + lia.
    + unfold upto. rewrite length_firstn. lia.
  - (* transposition *)
    destruct (4 <=? length word) eqn:H4;
      [|apply does_ret; now split].
    apply Nat.leb_le in H4.
    next (fun i es => key_actions es = [] /\ 0 <= i <= length word - 2)
      as i es0 H0.
    { apply randint_quiet. lia. }
    destruct H0 as [K0 Hi].
    next (fun (_ : char) es => key_actions es = []) as a es1 H1.
    { apply index_quiet. lia. }
    destruct (isspace a).
    { apply does_ret. split; [reflexivity|].
      now rewrite !key_actions_app, K0, H1. }
    next (fun (_ : char) es => key_actions es = []) as b es2 H2.
    { apply index_quiet. lia. }
    destruct (isspace b).
    { apply does_ret. split; [reflexivity|].
      now rewrite !key_actions_app, K0, H1, H2. }
    eapply does_weaken; [apply corrected|].
    intros r es [-> K].
    apply (net_of_correction word (upto word i) ([b] ++ [a]) i 2); auto.
    + now rewrite !key_actions_app, K0, H1, H2, K.
    + lia.
    + unfold upto. rewrite length_firstn. lia.
  - (* duplicate *)
    next (fun i es => key_actions es = [] /\ 0 <= i <= length word - 1)
      as i es0 H0.
    { apply randint_quiet. lia. }
    destruct H0 as [K0 Hi].
    next (fun (_ : char) es => key_actions es = []) as c es1 H1.
    { apply index_quiet. lia. }
    eapply does_weaken; [apply corrected|].
    intros r es [-> K].
    apply (net_of_correction word (upto word (i + 1)) [c] (i + 1) 1); auto.
    + now rewrite !key_actions_app, K0, H1, K.
    + lia.
    + unfold upto. rewrite length_firstn. lia.
  - (* omission *)
    next (fun i es => key_actions es = [] /\ 1 <= i <= length word - 2)
      as i es0 H0.
    { apply randint_quiet. lia. }
    destruct H0 as [K0 Hi]. cbv zeta.
    assert (Hp : length (upto word i) = i)
      by (unfold upto; rewrite length_firstn; lia).
    next (fun (_ : unit) es => key_actions es = keys_of (upto word i))
      as u1 es1 H1.
    { apply typed_fully. }
    next (fun (_ : unit) es => key_actions es = []) as u2 es2 H2.
    { apply quiet_mistake. }
    next (fun (_ : unit) es => key_actions es = backspaces (length (upto word i)))
      as u3 es3 H3.
    { apply erased. }
    next (fun (_ : unit) es => key_actions es = keys_of (upto word i))
      as u4 es4 H4.
    { apply typed_fully. }
    apply does_ret. exists i, 0.
    split; [lia|]. split; [lia|]. split; [lia|].
    intros screen.
    rewrite <- render_from_keys, !key_actions_app, K0, H1, H2, H3, H4.
    cbn [app]. change (key_actions []) with (@nil event).
    rewrite app_nil_r, !render_from_app.
    rewrite (render_keys_of (upto word i) screen), render_backspaces.
    apply render_keys_of.
Qed.

Lemma letter_typo_net (word : str) (base_wpm : Q) (w : world) :
  does (_maybe_letter_typo rnd self word base_wpm) w (net word).
Proof.
  unfold _maybe_letter_typo.
  destruct (negb (enable_corrections (settings self)));
    [apply does_ret; now split|].
  destruct (length word <? 3) eqn:H3; [apply does_ret; now split|].
  apply Nat.ltb_ge in H3.
  next (fun (_ : Q) (es : list event) => es = []) as u es0 H0.
  { now apply does_draw. }
  subst es0.
  destruct (Qle_bool (letter_typo_rate (settings self)) u);
    [apply does_ret; now split|].
  next (fun (_ : typo_type) (es : list event) => es = []) as kind es1 H1.
  { eexists; eexists; exists []. rewrite choices_run.
    split; [reflexivity|]. split; [|reflexivity]. simpl. now rewrite app_nil_r. }
  subst es1. now apply typo_net.
Qed.

(** What the session does after an injector has returned. *)
Lemma rest_of_token (remaining : str) (base_wpm : Q) (pause : M unit)
  (w : world) :
  (forall w0, does pause w0 (fun _ es => key_actions es = [])) ->
  does (stop <- is_set self ;;
        if (stop : bool) then ret Break
        else _type_slow rnd self remaining base_wpm ;; pause ;; ret Next)
       w (fun f es => f = Next /\ key_actions es = keys_of remaining).
Proof.
  intros Hpause.
  next (fun b es => b = false /\ key_actions es = []) as stop es0 H0.
  { apply quiet_poll. }
  destruct H0 as [-> K0].
  next (fun (_ : unit) es => key_actions es = keys_of remaining) as u1 es1 H1.
  { apply typed_fully. }
  next (fun (_ : unit) es => key_actions es = []) as u2 es2 H2.
  { apply Hpause. }
  apply does_ret. split; [reflexivity|].
  now rewrite !key_actions_app, K0, H1, H2, !app_nil_r.
Qed.

Lemma pause_after_word_quiet (word : str) (w : world) :
  does (_pause_after_word rnd self word) w (fun _ es => key_actions es = []).
Proof.
  eapply does_weaken.
  - apply does_performs, performs_pause_after_word.
  - now intros _ es [_ K].
Qed.

(** X12. When the session is not stopped, the word branch types the word
    with at most two consecutive characters left out: the screen gains
    [word[:j] + word[j+m:]] for some [j] and some [m <= 2].  A typo never
    adds a character to the word, reorders it or erases earlier text. *)
Theorem word_is_typed_with_a_gap (word : str) (base_wpm : Q) (w : world) :
  does (type_word rnd self word base_wpm) w
       (fun f es =>
          f = Next
          /\ exists j m,
               m <= 2 /\ j <= length word /\ adds (without word j m) es).
Proof.
  unfold type_word.
  next (net word) as r es0 H0.
  { apply letter_typo_net. }
  destruct r as [[did_typo typed_prefix] n].
  eapply does_weaken.
  { apply rest_of_token. apply pause_after_word_quiet. }
  intros f es [-> K]. split; [reflexivity|].
  unfold net in H0. destruct did_typo.
  - destruct H0 as (j & m & Hm & Hj & Hl & Hadd). exists j, m.
    split; [exact Hm|]. split; [exact Hj|].
    unfold without. apply adds_app; [exact Hadd|].
    apply adds_keys. now rewrite K, Hl.
  - destruct H0 as [-> K0]. exists 0, 0.
    split; [lia|]. split; [lia|].
    change (without word 0 0) with ([] ++ word).
    apply adds_app; [now apply adds_nothing | now apply adds_keys].
Qed.

(* ------------- punctuation ------------- *)

Lemma pause_after_punct_quiet (token : str) (w : world) :
  does (_pause_after_punct rnd self token) w (fun _ es => key_actions es = []).
Proof.
  assert (Hpause : forall a b w0,
    does (d <- uniform rnd a b ;; sleep d) w0 (fun _ es => key_actions es = [])).
  { intros a b w0. eapply does_weaken.
    - apply does_performs, performs_pause.
    - now intros _ es [_ K]. }
  unfold _pause_after_punct.
  destruct (negb (micro_pauses (settings self))); [now apply does_ret|].
  destruct token as [|c [|c' token]]; try now apply does_ret.
  destruct (char_in c (py ".!?")); [apply Hpause|].
  destruct (char_in c (py ",;:")); [apply Hpause | now apply does_ret].
Qed.

Lemma punct_typo_net (punct : str) (base_wpm : Q) (w : world) :
  does (_maybe_punct_typo rnd self punct base_wpm) w
       (fun did es =>
          if (did : bool)
          then exists c,
                 char_in c PUNCTUATION_SET = true /\ [c] <> punct
                 /\ key_actions es = key_of c ++ backspaces 1
          else key_actions es = []).
Proof.
  unfold _maybe_punct_typo.
  destruct (negb (enable_corrections (settings self))); [now apply does_ret|].
  destruct (in_punctuation_set punct) eqn:Hin; cbn [negb];
    [|now apply does_ret].
  next (fun (_ : Q) (es : list event) => es = []) as u es0 H0.
  { now apply does_draw. }
  subst es0.
  destruct (Qle_bool (punct_typo_rate (settings self)) u);
    [now apply does_ret|].
  destruct (candidates_of_mark punct Hin) as (x & xs & -> & Hall).
  next (fun wrong (es : list event) => es = [] /\ In wrong (x :: xs))
    as wrong es1 H1.
  { destruct (choice_In rnd x xs w') as (c & E & Hc).
    exists c, {| trace := trace w'; draws := S (draws w') |}, [].
    split; [exact E|]. split; [simpl; now rewrite app_nil_r | now split]. }
  destruct H1 as [-> Hwrong].
  rewrite Forall_forall in Hall.
  destruct (Hall wrong Hwrong) as (c & -> & Hc & Hne).
  eapply does_weaken; [apply corrected|].
  intros r es [-> K]. exists c. split; [exact Hc|]. split; [exact Hne|].
  cbn [app]. rewrite K. cbn. now rewrite app_nil_r.
Qed.

(** X13. When the session is not stopped, the punctuation branch leaves
    exactly the mark on screen.  When the punctuation typo fires, what is
    typed first is one other mark of the set, erased by one backspace
    before the mark itself is typed. *)
Theorem punctuation_is_typed_in_the_end (token : str) (base_wpm : Q)
  (w : world) :
  in_punctuation_set token = true ->
  does (type_punct rnd self token base_wpm) w
       (fun f es =>
          f = Next
          /\ adds token es
          /\ (key_actions es = keys_of token
              \/ exists c,
                   char_in c PUNCTUATION_SET = true /\ [c] <> token
                   /\ key_actions es
                      = key_of c ++ backspaces 1 ++ keys_of token)).
Proof.
  intros _. unfold type_punct.
  next (fun did es =>
          if (did : bool)
          then exists c,
                 char_in c PUNCTUATION_SET = true /\ [c] <> token
                 /\ key_actions es = key_of c ++ backspaces 1
          else key_actions es = []) as did es0 H0.
  { apply punct_typo_net. }
  eapply does_weaken.
  { apply rest_of_token. apply pause_after_punct_quiet. }
  intros f es [-> K]. split; [reflexivity|].
  destruct did.
  - destruct H0 as (c & Hc & Hne & K0). split.
    + change token with ([] ++ token).
      apply adds_app; [|now apply adds_keys].
      apply (adds_correction [] [c]). rewrite K0. cbn.
      now rewrite app_nil_r.
    + right. exists c. split; [exact Hc|]. split; [exact Hne|].
      now rewrite key_actions_app, K0, K, <- app_assoc.
  - split.
    + change token with ([] ++ token).
      apply adds_app; [now apply adds_nothing | now apply adds_keys].
    + left. now rewrite key_actions_app, H0, K.
Qed.

(* ------------- a whole text ------------- *)

(** Letter typos cannot fire: corrections are off, or no draw is below
    the letter-typo rate. *)
Hypothesis no_letter_typos :
  enable_corrections (settings self) = false
  \/ forall n,
       Qle_bool (letter_typo_rate (settings self)) (unit_draw rnd n) = true.

Lemma no_letter_typo (word : str) (base_wpm : Q) (w : world) :
  does (_maybe_letter_typo rnd self word base_wpm) w
       (fun r es => r = (false, [], 0) /\ key_actions es = []).
Proof.
  unfold _maybe_letter_typo.
  destruct (enable_corrections (settings self)) eqn:Hen; cbn [negb];
    [|now apply does_ret].
  destruct (length word <? 3); [now apply does_ret|].
  destruct no_letter_typos as [Hoff|Hrate]; [discriminate|].
  next (fun u (es : list event) =>
          es = [] /\ Qle_bool (letter_typo_rate (settings self)) u = true)
    as u es0 H0.
  { apply does_draw. split; [reflexivity | apply Hrate]. }
  destruct H0 as [-> ->]. now apply does_ret.
Qed.

Lemma type_token_adds (token : str) (w : world) :
  does (type_token rnd self token) w (fun f es => f = Next /\ adds token es).
Proof.
  unfold type_token.
  next (fun (_ : Q) (es : list event) => es = []) as base_wpm es0 H0.
  { now apply does_uniform. }
  subst es0. cbn [app].
  assert (Hplain : forall w0,
    does (_type_slow rnd self token base_wpm ;; ret Next) w0
         (fun f es => f = Next /\ adds token es)).
  { intros w0.
    next (fun (_ : unit) es => key_actions es = keys_of token) as u es1 H1.
    - apply typed_fully.
    - apply does_ret. split; [reflexivity|].
      rewrite app_nil_r. now apply adds_keys. }
  destruct (str_eqb (strip token) []); [apply Hplain|].
  destruct (is_word token).
  - unfold type_word.
    next (fun (r : bool * str * nat) es =>
            r = (false, [], 0) /\ key_actions es = []) as r es1 H1.
    { apply no_letter_typo. }
    destruct H1 as [-> K1]. cbv beta iota.
    eapply does_weaken.
    { apply rest_of_token. apply pause_after_word_quiet. }
    intros f es [-> K]. split; [reflexivity|].
    change token with ([] ++ token).
    apply adds_app; [now apply adds_nothing | now apply adds_keys].
  - destruct (in_punctuation_set token) eqn:Hin; [|apply Hplain].
    unfold type_punct.
    next (fun (_ : bool) es => adds [] es) as did es1 H1.
    { eapply does_weaken; [apply punct_typo_net|].
      intros did es Hes. destruct did.
      - destruct Hes as (c & _ & _ & K).
        apply (adds_correction [] [c]). rewrite K. cbn.
        now rewrite app_nil_r.
      - now apply adds_nothing. }
    eapply does_weaken.
    { apply rest_of_token. apply pause_after_punct_quiet. }
    intros f es [-> K]. split; [reflexivity|].
    change token with ([] ++ token).
    apply adds_app; [exact H1 | now apply adds_keys].
Qed.

Lemma type_tokens_adds (tokens : list str) :
  forall w,
    does (type_tokens rnd self tokens) w (fun _ es => adds (concat tokens) es).
Proof.
  induction tokens as [|token rest IH]; intros w.
  - apply does_ret. now apply adds_nothing.
  - cbn [type_tokens concat].
    next (fun b es => b = false /\ key_actions es = []) as stop es0 H0.
    { apply quiet_poll. }
    destruct H0 as [-> K0].
    next (fun f es => f = Next /\ adds token es) as f es1 H1.
    { apply type_token_adds. }
    destruct H1 as [-> Htoken].
    eapply does_weaken; [apply IH|].
    intros u es Hrest.
    change (token ++ concat rest) with ([] ++ token ++ concat rest).
    apply adds_app; [now apply adds_nothing|].
    now apply adds_app.
Qed.

(** X14. When the session is not stopped and letter typos cannot fire
    (corrections are off, or no draw falls below the letter-typo rate),
    the session leaves on screen exactly the text with its line endings
    normalized, even when punctuation typos fire on the way. *)
Theorem text_is_typed_verbatim (text : str) (w : world) :
  does (type_text rnd self text) w (fun _ es => adds (normalize text) es).
Proof.
  unfold type_text. rewrite has_keyboard. cbn [negb].
  eapply does_weaken; [apply type_tokens_adds|].
  intros u es Hes. unfold tokenize in Hes.
  now rewrite concat_scan in Hes.
Qed.

End QuietFacts.

(* ================================================================= *)
(** ** Stopping during the countdown *)

Section CountdownFacts.
Context {U : Unicode}.
Variable rnd : oracle.
Variable self : HumanTyper.

(** X15. The countdown does not look at the stop event.  When the stop is
    requested before the countdown is over, the task still posts every
    status of the countdown and sleeps through it; then the typing loop
    observes the stop at its first poll, and the task ends with its last
    status without any key action or random draw. *)
Theorem stop_during_countdown_types_nothing
  (text : str) (countdown t : nat) (w : world) :
  keyboard self = true ->
  stop_event self = Some t ->
  t <= length (trace w) + length (preamble (ui_callback self) countdown) ->
  run rnd self text countdown w
  = (Ok tt,
     {| trace :=
          trace w
          ++ preamble (ui_callback self) countdown
          ++ (match tokenize (normalize text) with
              | [] => []
              | _ :: _ => [Poll true]
              end)
          ++ (if ui_callback self then [Status DoneOrStopped] else []);
        draws := draws w |})
  /\ key_actions (preamble (ui_callback self) countdown) = [].
Proof.
  intros Hk Hs Ht. split.
  - unfold run, preamble in *.
    rewrite (bind_ok _ _ _ _ _ (post_run self ClickIntoTarget w)).
    rewrite (bind_ok _ _ _ _ _ (count_down_run self countdown _)).
    rewrite (bind_ok _ _ _ _ _ (post_run self Typing _)).
    cbn [trace draws].
    set (w3 := {| trace := _; draws := draws w |}).
    assert (Hlen : t <= length (trace w3)).
    { subst w3. cbn [trace]. rewrite !length_app in *. lia. }
    assert (Htyped :
      type_text rnd self text w3
      = (Ok tt,
         {| trace := trace w3
                     ++ match tokenize (normalize text) with
                        | [] => []
                        | _ :: _ => [Poll true]
                        end;
            draws := draws w |})).
    { unfold type_text. rewrite Hk. cbn [negb].
      destruct (tokenize (normalize text)) as [|token rest].
      - cbn. unfold ret. now rewrite app_nil_r.
      - cbn [type_tokens]. unfold bind, is_set. rewrite Hs.
        apply Nat.leb_le in Hlen. now rewrite Hlen. }
    rewrite (bind_ok _ _ _ _ _ Htyped), post_run.
    subst w3. cbn [trace draws]. now rewrite <- !app_assoc.
  - unfold preamble. rewrite !key_actions_app.
    assert (Hcd : forall n,
              key_actions (countdown_events (ui_callback self) n) = []).
    { induction n as [|n IH]; [reflexivity|].
      cbn [countdown_events]. rewrite !key_actions_app, IH.
      now destruct (ui_callback self). }
    rewrite Hcd. now destruct (ui_callback self).
Qed.

End CountdownFacts.

(* ================================================================= *)
(** ** The sessions the window starts *)


(* ================================================================= *)
(** ** Stopping a session that makes no corrections *)

Lemma does_bind_trace {A B} (m : M A) (k : A -> M B) (w : world)
  (P : A -> list event -> Prop) (Q : B -> list event -> Prop) :
  does m w P ->
  (forall a es w',
     P a es -> trace w' = trace w ++ es ->
     does (k a) w' (fun b es' => Q b (es ++ es'))) ->
  does (bind m k) w Q.
Proof.
  intros (a & w1 & es1 & E1 & T1 & HP) Hk.
  destruct (Hk a es1 w1 HP T1) as (b & w2 & es2 & E2 & T2 & HQ).
  exists b, w2, (es1 ++ es2). repeat split.
  - now rewrite (bind_ok m k w w1 a E1).
  - now rewrite T2, T1, app_assoc.
  - exact HQ.
Qed.

Tactic Notation "after" constr(P) "as" ident(a) ident(es) ident(w)
  ident(H) ident(T) :=
  eapply (does_bind_trace _ _ _ P); [| intros a es w H T].

Lemma keys_of_app (s1 s2 : str) : keys_of (s1 ++ s2) = keys_of s1 ++ keys_of s2.
Proof. apply flat_map_app. Qed.

Section StopFacts.
Context {U : Unicode}.
Variable rnd : oracle.
Variable self : HumanTyper.
Hypothesis has_keyboard : keyboard self = true.
Hypothesis corrections_off : enable_corrections (settings self) = false.

(** The stop has been requested by the time the trace holds [n] events. *)
Let stopped_at (n : nat) : Prop :=
  exists t, stop_event self = Some t /\ t <= n.

(** What a command may do to the text [s] it has to type: it types a
    prefix of it, and when the prefix is not the whole text the stop has
    been requested by the end. *)
Let types_prefix (s : str) (w : world) (es : list event) : Prop :=
  exists n,
    n <= length s
    /\ key_actions es = keys_of (firstn n s)
    /\ (n < length s -> stopped_at (length (trace w) + length es)).

Lemma poll_outcome (w : world) :
  does (is_set self) w
       (fun b es => es = [Poll b]
                    /\ (b = true <-> stopped_at (length (trace w)))).
Proof.
  unfold is_set, stopped_at.
  eexists; eexists; eexists. split; [reflexivity|].
  split; [reflexivity|]. split; [reflexivity|].
  destruct (stop_event self) as [t|].
  - rewrite Nat.leb_le. split.
    + intros Ht. now exists t.
    + intros (t' & E & Ht). now injection E as ->.
  - split; [discriminate|]. now intros (t' & E & _).
Qed.

Lemma types_prefix_nothing (s : str) (w : world) (es : list event) :
  key_actions es = [] ->
  stopped_at (length (trace w)) ->
  types_prefix s w es.
Proof.
  intros K (t & E & Ht). exists 0. split; [lia|]. split; [exact K|].
  intros _. exists t. split; [exact E | lia].
Qed.

(** Quiet events before and after do not change what was typed. *)
Lemma types_prefix_frame (s : str) (w w' : world) (es0 es es1 : list event) :
  key_actions es0 = [] -> key_actions es1 = [] ->
  trace w' = trace w ++ es0 ->
  types_prefix s w' es ->
  types_prefix s w (es0 ++ es ++ es1).
Proof.
  intros K0 K1 T (n & Hn & K & Hstop). exists n.
  split; [exact Hn|]. split.
  - now rewrite !key_actions_app, K0, K, K1, app_nil_r.
  - intros Hlt. destruct (Hstop Hlt) as (t & E & Ht). exists t.
    split; [exact E|]. rewrite T, !length_app in *. lia.
Qed.

Lemma type_slow_stop (text : str) (base_wpm : Q) :
  forall w, does (_type_slow rnd self text base_wpm) w
                 (fun _ es => types_prefix text w es).
Proof.
  induction text as [|ch rest IH]; intros w.
  - apply does_ret. exists 0. repeat split; auto. cbn. lia.
  - cbn [_type_slow].
    after (fun b es => es = [Poll b]
                       /\ (b = true <-> stopped_at (length (trace w))))
      as stop es0 w0 H0 T0.
    { apply poll_outcome. }
    destruct H0 as [-> Hstop]. destruct stop.
    + apply does_ret. apply types_prefix_nothing; [reflexivity|].
      now apply Hstop.
    + after (fun (_ : unit) es => es = key_of ch) as u1 es1 w1 H1 T1.
      { eapply does_weaken; [apply does_type_char|].
        cbv beta. now rewrite has_keyboard. }
      subst es1.
      after (fun (_ : Q) (es : list event) => es = []) as d es2 w2 H2 T2.
      { apply does_char_delay. }
      subst es2.
      after (fun (_ : unit) es => es = [Sleep d]) as u3 es3 w3 H3 T3.
      { now apply does_emit. }
      subst es3.
      eapply does_weaken; [apply IH|].
      intros _ es (n & Hn & K & Hrest). exists (S n).
      split; [cbn; lia|]. split.
      * rewrite !key_actions_app, K, key_actions_key_of. reflexivity.
      * intros Hlt. destruct Hrest as (t & E & Ht); [cbn in Hlt; lia|].
        exists t. split; [exact E|].
        rewrite T3, T2, T1, T0, !length_app in Ht.
        rewrite !length_app. cbn [length] in *. lia.
Qed.

Lemma no_correction_word (word : str) (base_wpm : Q) (w : world) :
  does (_maybe_letter_typo rnd self word base_wpm) w
       (fun r es => r = (false, [], 0) /\ es = []).
Proof.
  unfold _maybe_letter_typo. rewrite corrections_off. now apply does_ret.
Qed.

Lemma no_correction_punct (punct : str) (base_wpm : Q) (w : world) :
  does (_maybe_punct_typo rnd self punct base_wpm) w
       (fun _ es => es = []).
Proof.
  unfold _maybe_punct_typo. rewrite corrections_off. now apply does_ret.
Qed.

(** What the session does after an injector that did nothing. *)
Lemma rest_of_token_stop (token : str) (base_wpm : Q) (pause : M unit)
  (w : world) :
  (forall w0, does pause w0 (fun _ es => key_actions es = [])) ->
  does (stop <- is_set self ;;
        if (stop : bool) then ret Break
        else _type_slow rnd self token base_wpm ;; pause ;; ret Next)
       w (fun _ es => types_prefix token w es).
Proof.
  intros Hpause.
  after (fun b es => es = [Poll b]
                     /\ (b = true <-> stopped_at (length (trace w))))
    as stop es0 w0 H0 T0.
  { apply poll_outcome. }
  destruct H0 as [-> Hstop]. destruct stop.
  - apply does_ret. apply types_prefix_nothing; [reflexivity|].
    now apply Hstop.
  - after (fun (_ : unit) es => types_prefix token w0 es) as u1 es1 w1 H1 T1.
    { apply type_slow_stop. }
    after (fun (_ : unit) es => key_actions es = []) as u2 es2 w2 H2 T2.
    { apply Hpause. }
    apply does_ret. rewrite app_nil_r.
    now apply (types_prefix_frame token w w0 [Poll false] es1 es2).
Qed.

Lemma type_token_stop (token : str) (w : world) :
  does (type_token rnd self token) w (fun _ es => types_prefix token w es).
Proof.
  unfold type_token.
  after (fun (_ : Q) (es : list event) => es = []) as base_wpm es0 w0 H0 T0.
  { now apply does_uniform. }
  subst es0. rewrite app_nil_r in T0.
  assert (Hw : forall es, types_prefix token w0 es -> types_prefix token w es).
  { intros es (n & Hn & K & Hstop). exists n. repeat split; auto.
    rewrite <- T0. exact Hstop. }
  assert (Hplain :
    does (_type_slow rnd self token base_wpm ;; ret Next) w0
         (fun _ es => types_prefix token w es)).
  { after (fun (_ : unit) es => types_prefix token w0 es) as u es1 w1 H1 T1.
    - apply type_slow_stop.
    - apply does_ret. rewrite app_nil_r. now apply Hw. }
  cbn [app].
  destruct (str_eqb (strip token) []); [exact Hplain|].
  destruct (is_word token).
  - unfold type_word.
    after (fun (r : bool * str * nat) (es : list event) =>
             r = (false, [], 0) /\ es = []) as r es1 w1 H1 T1.
    { apply no_correction_word. }
    destruct H1 as [-> ->]. cbv beta iota. cbn [app].
    rewrite app_nil_r in T1.
    eapply does_weaken.
    { apply rest_of_token_stop. intros w2. eapply does_weaken.
      - apply does_performs, performs_pause_after_word.
      - now intros _ es [_ K]. }
    intros u2 es Hes. apply Hw.
    destruct Hes as (n & Hn & K & Hstop). exists n. repeat split; auto.
    rewrite <- T1. exact Hstop.
  - destruct (in_punctuation_set token); [|exact Hplain].
    unfold type_punct.
    after (fun (_ : bool) (es : list event) => es = []) as did es1 w1 H1 T1.
    { apply no_correction_punct. }
    subst es1. cbn [app]. rewrite app_nil_r in T1.
    eapply does_weaken.
    { apply rest_of_token_stop. intros w2.
      apply (pause_after_punct_quiet rnd self token w2). }
    intros u2 es Hes. apply Hw.
    destruct Hes as (n & Hn & K & Hstop). exists n. repeat split; auto.
    rewrite <- T1. exact Hstop.
Qed.

Lemma type_tokens_when_stopped (tokens : list str) (w : world) :
  stopped_at (length (trace w)) ->
  does (type_tokens rnd self tokens) w (fun _ es => key_actions es = []).
Proof.
  intros Hstopped. destruct tokens as [|token rest]; [now apply does_ret|].
  cbn [type_tokens].
  after (fun b es => es = [Poll b]
                     /\ (b = true <-> stopped_at (length (trace w))))
    as stop es0 w0 H0 T0.
  { apply poll_outcome. }
  destruct H0 as [-> Hstop]. apply Hstop in Hstopped. subst stop.
  now apply does_ret.
Qed.

Lemma prefix_of_first (token : str) (rest : str) (n : nat) :
  n <= length token -> firstn n (token ++ rest) = firstn n token.
Proof.
  intros Hn. rewrite firstn_app.
  replace (n - length token) with 0 by lia. cbn. now rewrite app_nil_r.
Qed.

Lemma type_tokens_stop (tokens : list str) :
  forall w,
    does (type_tokens rnd self tokens) w
         (fun _ es =>
            exists n, key_actions es = keys_of (firstn n (concat tokens))).
Proof.
  induction tokens as [|token rest IH]; intros w.
  - apply does_ret. now exists 0.
  - cbn [type_tokens concat].
    after (fun b es => es = [Poll b]
                       /\ (b = true <-> stopped_at (length (trace w))))
      as stop es0 w0 H0 T0.
    { apply poll_outcome. }
    destruct H0 as [-> _]. destruct stop.
    { apply does_ret. now exists 0. }
    after (fun (_ : flow) es => types_prefix token w0 es) as f es1 w1 H1 T1.
    { apply type_token_stop. }
    destruct H1 as (n & Hn & K & Hstop).
    destruct f.
    + destruct (Nat.eq_dec n (length token)) as [->|Hne].
      * eapply does_weaken; [apply IH|].
        intros u es [n' K']. exists (length token + n').
        rewrite firstn_app_2, keys_of_app, !key_actions_app, K, K'.
        now rewrite firstn_all.
      * eapply does_weaken.
        { apply type_tokens_when_stopped. rewrite T1, length_app.
          apply Hstop. lia. }
        intros u es K'. exists n.
        rewrite prefix_of_first by exact Hn.
        now rewrite !key_actions_app, K, K', app_nil_r.
    + apply does_ret. exists n.
      rewrite prefix_of_first by exact Hn.
      now rewrite !key_actions_app, K, app_nil_r.
Qed.

(** X17. With corrections off, a session can be stopped at any moment:
    its key actions type a prefix of the normalized text, one character
    at a time, and nothing else; no backspace is ever pressed, so what is
    on screen is that prefix. *)
Theorem stopping_leaves_a_prefix (text : str) (w : world) :
  does (type_text rnd self text) w
       (fun _ es =>
          exists n,
            key_actions es = keys_of (firstn n (normalize text))
            /\ adds (firstn n (normalize text)) es).
Proof.
  unfold type_text. rewrite has_keyboard. cbn [negb].
  eapply does_weaken; [apply type_tokens_stop|].
  intros u es [n K]. unfold tokenize in K. rewrite concat_scan in K.
  exists n. split; [exact K | now apply adds_keys].
Qed.

End StopFacts.

(* ================================================================= *)
(** ** The further properties at concrete inputs *)

#[local] Existing Instance ascii_tables.


(** A WPM sampled under the default settings. *)
Lemma sample_wpm_in_range_witness :
  unit_range halves
  /\ (min_wpm default_settings <= max_wpm default_settings)%Q
  /\ exists wpm,
       sample_wpm halves default_settings initial
       = (Ok wpm, {| trace := []; draws := 1 |})
       /\ (45 <= wpm <= 70)%Q.
Proof.
  assert (Hunit : unit_range halves) by (intros n; split; discriminate).
  assert (Hle : (min_wpm default_settings <= max_wpm default_settings)%Q)
    by discriminate.
  split; [exact Hunit|]. split; [exact Hle|].
  exact (sample_wpm_in_range halves default_settings initial Hunit Hle).
Defined.

(** The token "it's" is a word, the token "a_b" is not. *)
Lemma word_tokens_treated_as_words_witness :
  is_run (py "it's") = true
  /\ is_word (py "it's") = true
  /\ is_run (py "a_b") = true
  /\ is_word (py "a_b") = false.
Proof.
  assert (H1 : is_run (py "it's") = true) by reflexivity.
  assert (H2 : is_run (py "a_b") = true) by reflexivity.
  split; [exact H1|]. split; [|split; [exact H2|]].
  - rewrite (@word_tokens_treated_as_words ascii_tables eq_refl eq_refl
               (py "it's") H1). reflexivity.
  - rewrite (@word_tokens_treated_as_words ascii_tables eq_refl eq_refl
               (py "a_b") H2). reflexivity.
Defined.

(** Typing "hello" when the stop comes after the second character. *)
Lemma type_slow_types_a_prefix_witness :
  keyboard (typer (Some 5)) = true
  /\ does (_type_slow zeros (typer (Some 5)) (py "hello") 60) initial
          (fun _ es =>
             exists n,
               n <= length (py "hello")
               /\ key_actions es = keys_of (firstn n (py "hello"))
               /\ adds (firstn n (py "hello")) es
               /\ (stop_event (typer (Some 5)) = None
                   -> n = length (py "hello"))).
Proof.
  split; [reflexivity|].
  exact (type_slow_types_a_prefix zeros (typer (Some 5)) (py "hello") 60
           eq_refl initial).
Defined.


(** A session of "hi there" without corrections, stopped after seven
    events. *)
Lemma stopping_leaves_a_prefix_witness :
  keyboard {| settings := settings typer_without_corrections;
              keyboard := true; stop_event := Some 7;
              ui_callback := true |} = true
  /\ enable_corrections (settings typer_without_corrections) = false
  /\ does (type_text zeros
             {| settings := settings typer_without_corrections;
                keyboard := true; stop_event := Some 7;
                ui_callback := true |}
             (py "hi there")) initial
          (fun _ es =>
             exists n, adds (firstn n (py "hi there")) es).
Proof.
  split; [reflexivity|]. split; [reflexivity|].
  eapply does_weaken.
  - exact (stopping_leaves_a_prefix zeros
             {| settings := settings typer_without_corrections;
                keyboard := true; stop_event := Some 7;
                ui_callback := true |}
             eq_refl eq_refl (py "hi there") initial).
  - intros u es (n & _ & Hadd). exists n. exact Hadd.
Defined.


(** The word "hello" under the oracle that forces a substitution. *)
Lemma word_is_typed_with_a_gap_witness :
  keyboard (typer None) = true /\ stop_event (typer None) = None
  /\ does (type_word (forced 0 0 2) (typer None) (py "hello") 60)
          {| trace := []; draws := 1 |}
          (fun f es =>
             f = Next
             /\ exists j m,
                  m <= 2 /\ j <= length (py "hello")
                  /\ adds (without (py "hello") j m) es).
Proof.
  split; [reflexivity|]. split; [reflexivity|].
  exact (word_is_typed_with_a_gap (forced 0 0 2) (typer None) eq_refl eq_refl
           (py "hello") 60 {| trace := []; draws := 1 |}).
Defined.

(** A comma under the oracle that makes every typo fire. *)
Lemma punctuation_is_typed_in_the_end_witness :
  keyboard (typer None) = true /\ stop_event (typer None) = None
  /\ in_punctuation_set (py ",") = true
  /\ does (type_punct zeros (typer None) (py ",") 60) initial
          (fun f es => f = Next /\ adds (py ",") es).
Proof.
  split; [reflexivity|]. split; [reflexivity|]. split; [reflexivity|].
  eapply does_weaken.
  - exact (punctuation_is_typed_in_the_end zeros (typer None) eq_refl eq_refl
             (py ",") 60 initial eq_refl).
  - intros f es (Hf & Hadd & _). now split.
Defined.

(** A two-line text typed when no letter typo fires. *)
Lemma text_is_typed_verbatim_witness :
  keyboard (typer None) = true /\ stop_event (typer None) = None
  /\ (forall n, Qle_bool (letter_typo_rate (settings (typer None)))
                         (unit_draw halves n) = true)
  /\ does (type_text halves (typer None) [104; 105; 13; 10; 121; 111; 46]%N)
          initial
          (fun _ es => adds [104; 105; 10; 121; 111; 46]%N es).
Proof.
  assert (Hcalm : forall n,
    Qle_bool (letter_typo_rate (settings (typer None))) (unit_draw halves n)
    = true) by (intros n; reflexivity).
  split; [reflexivity|]. split; [reflexivity|]. split; [exact Hcalm|].
  exact (text_is_typed_verbatim halves (typer None) eq_refl eq_refl
           (or_intror Hcalm) [104; 105; 13; 10; 121; 111; 46]%N initial).
Defined.

(** Stop pressed at once, with a countdown of 2. *)
Lemma stop_during_countdown_types_nothing_witness :
  keyboard (typer (Some 0)) = true
  /\ stop_event (typer (Some 0)) = Some 0
  /\ 0 <= length (trace initial) + length (preamble true 2)
  /\ run zeros (typer (Some 0)) (py "hi") 2 initial
     = (Ok tt,
        {| trace := preamble true 2 ++ [Poll true; Status DoneOrStopped];
           draws := 0 |}).
Proof.
  assert (Ht : 0 <= length (trace initial) + length (preamble true 2))
    by (simpl; lia).
  split; [reflexivity|]. split; [reflexivity|]. split; [exact Ht|].
  exact (proj1 (stop_during_countdown_types_nothing zeros (typer (Some 0))
                  (py "hi") 2 0 initial eq_refl eq_refl Ht)).
Defined.

